(** * nodejs-ai-assistant-backend: the streaming relay and the agent registry

    A shallow embedding of [src/index.ts] (the Express routes, the agent
    cache, the pending set and the idle sweep), of
    [AnthropicResponseHandler] (the streaming relay) and of
    [src/lib/agent.ts] (the profile lookup), with the properties the
    specification states about them.

    JavaScript is single threaded: a handler runs without interruption
    until it reaches an [await], and only there can another handler or the
    timer callback run.  Asynchronous code is therefore embedded as
    processes whose steps are the synchronous segments between two awaits;
    what the awaited promise settles with is an input of the step. *)

From Stdlib Require Import ZArith NArith Ascii Lia.
From stdpp Require Import base tactics option list strings gmap.

(** ** Completions: a JavaScript computation returns or throws *)

Inductive completion (A : Type) : Type :=
| Normal (a : A)
| Throw (message : string).
Arguments Normal {A} a.
Arguments Throw {A} message.

(** * The streaming relay: [AnthropicResponseHandler] *)

Module Relay.

(** The stream events of the Anthropic SDK that [handle] switches on.  The
    delta of a [content_block_delta] is a text delta or one of the other
    delta kinds (tool input JSON and the like). *)
Inductive delta : Type :=
| text_delta (text : string)
| other_delta.

Inductive RawMessageStreamEvent : Type :=
| message_start
| message_delta
| message_stop
| content_block_start
| content_block_delta (d : delta)
| content_block_stop.

(** The network calls the handler makes on the chat client and channel. *)
Inductive call : Type :=
| sendEvent_update                      (* ai_indicator.update, AI_STATE_GENERATING *)
| sendEvent_clear                       (* ai_indicator.clear *)
| partialUpdateMessage (text : string) (generating : bool).

(** What an observer of one handler sees, most recent entry first. *)
Inductive entry : Type :=
| Consumed (ev : RawMessageStreamEvent)   (* [handle] was entered with [ev] *)
| Called (c : call) (rejected : bool)     (* a network call and how it settled *)
| ConsoleError (message : string).        (* the [console.error] of [run] *)

(** The two private fields of the class, and the journal. *)
Record handler : Type := mkHandler {
  message_text : string;
  chunk_counter : N;
  journal : list entry
}.

Definition fresh : handler :=
  {| message_text := ""; chunk_counter := 0; journal := [] |}.

Fixpoint count (p : entry -> bool) (j : list entry) : nat :=
  match j with
  | [] => 0
  | e :: older => (if p e then 1 else 0) + count p older
  end.

Definition is_call (e : entry) : bool :=
  match e with Called _ _ => true | _ => false end.

Definition calls_made (h : handler) : nat := count is_call (journal h).

(** [chunk_counter] is a JavaScript number: [c + 1] is exact below 2^53 and
    rounds back to 2^53 there. *)
Definition js_incr (c : N) : N :=
  if (c <? 2 ^ 53)%N then (c + 1)%N else c.

(** The throttling condition of [handle], lines 363-366. *)
Definition flush_due (c : N) : bool :=
  (c mod 15 =? 0)%N || ((c <? 8)%N && negb (c mod 2 =? 0)%N).

Section WithNetwork.

(** [rejects n] tells whether the [n]-th network call of the session (from
    0) ends in a rejected promise. *)
Variable rejects : nat -> bool.

Definition M (A : Type) : Type := handler -> completion A * handler.

Definition ret {A} (a : A) : M A := fun h => (Normal a, h).

Definition bind {A B} (m : M A) (k : A -> M B) : M B :=
  fun h =>
    match m h with
    | (Normal a, h') => k a h'
    | (Throw e, h') => (Throw e, h')
    end.

Notation "m1 >>> m2" := (bind m1 (fun _ => m2))
  (at level 90, right associativity).

Definition log (e : entry) : M unit :=
  fun h => (Normal tt,
            {| message_text := message_text h;
               chunk_counter := chunk_counter h;
               journal := e :: journal h |}).

(** [await] of a network call: the call is journalled with its outcome and
    a rejection is thrown at the await. *)
Definition await_call (c : call) : M unit :=
  fun h =>
    let r := rejects (calls_made h) in
    let h' := {| message_text := message_text h;
                 chunk_counter := chunk_counter h;
                 journal := Called c r :: journal h |} in
    (if r then Throw "rejected" else Normal tt, h').

Definition append_text (text : string) : M unit :=
  fun h => (Normal tt,
            {| message_text := message_text h +:+ text;
               chunk_counter := chunk_counter h;
               journal := journal h |}).

Definition incr_counter : M unit :=
  fun h => (Normal tt,
            {| message_text := message_text h;
               chunk_counter := js_incr (chunk_counter h);
               journal := journal h |}).

Definition flush_if_due : M unit :=
  fun h =>
    if flush_due (chunk_counter h)
    then await_call (partialUpdateMessage (message_text h) true) h
    else (Normal tt, h).

Definition final_update : M unit :=
  fun h => await_call (partialUpdateMessage (message_text h) false) h.

(** [handle], lines 347-383. *)
Definition handle (ev : RawMessageStreamEvent) : M unit :=
  log (Consumed ev) >>>
  match ev with
  | content_block_start => await_call sendEvent_update
  | content_block_delta (text_delta text) =>
      append_text text >>> incr_counter >>> flush_if_due
  | content_block_delta other_delta => ret tt
  | message_stop => final_update >>> await_call sendEvent_clear
  | _ => ret tt
  end.

(** One turn of the [for await] loop of [run]: try, catch, [console.error]. *)
Definition run_one (ev : RawMessageStreamEvent) (h : handler) : handler :=
  match handle ev h with
  | (Normal _, h') => h'
  | (Throw e, h') => snd (log (ConsoleError e) h')
  end.

(** [run], lines 316-324, over the events the stream delivers. *)
Fixpoint run (evs : list RawMessageStreamEvent) (h : handler) : handler :=
  match evs with
  | [] => h
  | ev :: rest => run rest (run_one ev h)
  end.

End WithNetwork.

(** Observers of the journal. *)

Definition text_of (ev : RawMessageStreamEvent) : string :=
  match ev with
  | content_block_delta (text_delta text) => text
  | _ => ""
  end.

Definition concat_texts (texts : list string) : string :=
  fold_right String.append "" texts.

Definition deltas (texts : list string) : list RawMessageStreamEvent :=
  map (fun t => content_block_delta (text_delta t)) texts.

(** The most recent [partialUpdateMessage] of the journal. *)
Fixpoint last_partial_update (j : list entry) : option (string * bool) :=
  match j with
  | [] => None
  | Called (partialUpdateMessage text generating) _ :: _ => Some (text, generating)
  | _ :: older => last_partial_update older
  end.

Definition is_indicator_update (e : entry) : bool :=
  match e with Called sendEvent_update _ => true | _ => false end.

Definition indicator_updates (h : handler) : nat :=
  count is_indicator_update (journal h).

Definition is_error (e : entry) : bool :=
  match e with ConsoleError _ => true | _ => false end.

Definition errors_logged (h : handler) : nat := count is_error (journal h).

Fixpoint block_starts (evs : list RawMessageStreamEvent) : nat :=
  match evs with
  | [] => 0
  | content_block_start :: rest => S (block_starts rest)
  | _ :: rest => block_starts rest
  end.

(** The events [handle] was entered with, oldest first. *)
Fixpoint consumed (j : list entry) : list RawMessageStreamEvent :=
  match j with
  | [] => []
  | Consumed ev :: older => consumed older ++ [ev]
  | _ :: older => consumed older
  end.

Definition is_flush (e : entry) : bool :=
  match e with Called (partialUpdateMessage _ true) _ => true | _ => false end.

(** The throttled partial updates ([generating = true]) made so far. *)
Definition flushes (h : handler) : nat := count is_flush (journal h).

Definition is_partial_update (e : entry) : bool :=
  match e with Called (partialUpdateMessage _ _) _ => true | _ => false end.

Definition partial_updates (h : handler) : nat :=
  count is_partial_update (journal h).

(** The throttling policy as the specification words it. *)
Definition policy (c : N) : Prop :=
  (c mod 15 = 0 \/ (c < 8 /\ c mod 2 = 1))%N.

Definition never : nat -> bool := fun _ => false.
Definition always : nat -> bool := fun _ => true.

End Relay.

(** * JavaScript values of the untyped data the routes touch *)

Module JS.

#[local] Set Warnings "-register-all".

(** A value of a JSON row: numbers are kept by their rendering (what
    [String(n)] gives, NaN for the number NaN), which is all the routes use
    of them; [object] is a plain object without [toString] of its own. *)
Inductive value : Type :=
| undefined
| null
| boolean (b : bool)
| number (rendering : string)
| str (s : string)
| array (items : list value)
| object.

(** [Array.prototype.join] with the default separator. *)
Fixpoint join (parts : list string) : string :=
  match parts with
  | [] => ""
  | [part] => part
  | part :: rest => part +:+ "," +:+ join rest
  end.

(** ToString, as applied by string concatenation and template literals. *)
Fixpoint ToString (v : value) : string :=
  match v with
  | undefined => "undefined"
  | null => "null"
  | boolean true => "true"
  | boolean false => "false"
  | number rendering => rendering
  | str s => s
  | array items =>
      join (List.map (fun item =>
                        match item with
                        | undefined | null => ""
                        | _ => ToString item
                        end) items)
  | object => "[object Object]"
  end.

(** ToBoolean. *)
Definition truthy (v : value) : bool :=
  match v with
  | undefined | null => false
  | boolean b => b
  | number rendering =>
      negb (String.eqb rendering "0" || String.eqb rendering "NaN")
  | str s => negb (String.eqb s "")
  | array _ | object => true
  end.

(** [a || b] *)
Definition or_else (a b : value) : value := if truthy a then a else b.

(** [v === 'literal'] *)
Definition strict_eq_string (v : value) (literal : string) : bool :=
  match v with
  | str s => String.eqb s literal
  | _ => false
  end.

(** A string whose first character is a letter other than [I] is no
    numeric literal (those start with white space, a digit, a sign, a dot
    or [Infinity]), so ToNumber gives NaN on it. *)
Definition starts_with_plain_letter (s : string) : bool :=
  match s with
  | String c _ =>
      let n := Ascii.N_of_ascii c in
      (((65 <=? n)%N && (n <=? 90)%N && negb (n =? 73)%N)
       || ((97 <=? n)%N && (n <=? 122)%N))
  | EmptyString => false
  end.

(** Unary plus on a string literal that is no numeric literal. *)
Definition unary_plus (s : string) (_ : starts_with_plain_letter s = true) : value :=
  number "NaN".

(** ** [Map]: the entry list of ECMAScript

    Entries stay in insertion order; [delete] empties the slot and leaves it
    in place, so that a running iterator, which is an index into the list,
    goes on with the entries that follow. *)
Section Map.
Context {V : Type}.

Definition MapData : Type := list (option (string * V)).

Fixpoint Map_get (m : MapData) (key : string) : option V :=
  match m with
  | [] => None
  | Some (k, v) :: rest => if String.eqb k key then Some v else Map_get rest key
  | None :: rest => Map_get rest key
  end.

Definition Map_has (m : MapData) (key : string) : bool :=
  match Map_get m key with Some _ => true | None => false end.

Fixpoint Map_set (m : MapData) (key : string) (v : V) : MapData :=
  match m with
  | [] => [Some (key, v)]
  | Some (k, v') :: rest =>
      if String.eqb k key then Some (k, v) :: rest
      else Some (k, v') :: Map_set rest key v
  | None :: rest => None :: Map_set rest key v
  end.

Fixpoint Map_delete (m : MapData) (key : string) : MapData :=
  match m with
  | [] => []
  | Some (k, v) :: rest =>
      if String.eqb k key then None :: rest
      else Some (k, v) :: Map_delete rest key
  | None :: rest => None :: Map_delete rest key
  end.

End Map.
Arguments MapData V : clear implicits.

(** [s.split(':')] *)
Fixpoint split_colon_go (current : string) (s : string) : list string :=
  match s with
  | EmptyString => [String.rev current]
  | String c rest =>
      if Ascii.eqb c ":"%char
      then String.rev current :: split_colon_go "" rest
      else split_colon_go (String c current) rest
  end.

Definition split_colon (s : string) : list string := split_colon_go "" s.

(** [s.startsWith(t)] and [s.includes(t)] *)
Fixpoint startsWith (s t : string) {struct t} : bool :=
  match t, s with
  | EmptyString, _ => true
  | String c t', String d s' => Ascii.eqb c d && startsWith s' t'
  | String _ _, EmptyString => false
  end.

Fixpoint includes (s t : string) : bool :=
  startsWith s t
  || match s with
     | EmptyString => false
     | String _ s' => includes s' t
     end.

End JS.

(** * The routes, the registry and the idle sweep: [index.ts] *)

Module Server.
Import JS.

(** ** Data *)

(** A row of the [ai_agents] table, as [getAIAgentInfo] returns it. *)
Record profile : Type := mkProfile {
  name : value;
  gender : value;
  personality : value;
  style : value;
  traits : value;
  quirks : value;
  bio : value
}.

(** An agent instance ([AIAgent]): its object identity and what
    [getLastInteraction()] returns, in milliseconds. *)
Record AIAgent : Type := mkAgent {
  agent_ref : nat;
  getLastInteraction : Z
}.

(** A channel member as [queryMembers] returns it. *)
Record user : Type := mkUser {
  user_id : string;
  isAIAgent : value
}.

Record member : Type := mkMember {
  member_user : option user
}.

(** The JSON body of a request. *)
Record body : Type := mkBody {
  channel_id : option string;
  channel_type : option string;
  platform : option string
}.

Record channel : Type := mkChannel {
  ctype : string;
  cid : string
}.

Inductive content_block : Type :=
| text_block (text : string)
| other_block.

Inductive json : Type :=
| message_json (message : string)                        (* { message, data: [] } *)
| error_json (error : string) (reason : option string).  (* { error, reason? } *)

(** What the server does that the outside can see, most recent first. *)
Inductive effect : Type :=
| console_log (text : string)
| console_warn (text : string)
| console_error (text : string)
| respond (status : nat) (payload : json)
| uncaught_rejection (message : string)   (* no [try] around the await *)
| queryMembers (ch : channel)
| supabase_single (agent_id : string)
| watch (ch : channel)
| createAgent (agent_id platform channel_type channel_id : string)
    (agentInfo : option profile)
| init (agent : AIAgent)
| dispose (agent : AIAgent)
| messages_create (system : string)
| sendMessage (ch : channel) (text : string) (user_id : string).

(** What an awaited promise settles with. *)
Inductive settled : Type :=
| rejected (message : string)
| resolved
| with_members (members : list member)
| with_row (data : option profile) (error : option string)
| with_agent (agent : AIAgent)
| with_message (content : list content_block).

(** The module state: the two collections of lines 17-18, and the trace. *)
Record server : Type := mkServer {
  aiAgentCache : MapData AIAgent;
  pendingAiAgents : gset string;
  trace : list effect
}.

Definition boot : server :=
  {| aiAgentCache := []; pendingAiAgents := ∅; trace := [] |}.

(** A suspended asynchronous function: where it waits and what it holds. *)
Inductive proc : Type :=
| finished
(* POST /start-ai-agent *)
| start_members (platform channel_type channel_id_updated : string)
| start_info (platform channel_type channel_id_updated agent_id : string)
| start_watch (platform channel_type channel_id_updated agent_id : string)
    (agentInfo : option profile)
| start_create (agent_id : string)
| start_init (agent_id : string) (agent : AIAgent)
| start_dispose (agent_id : string)
(* POST /stop-ai-agent *)
| stop_members
| stop_dispose (agent_id : string)
(* POST /new-ai-message *)
| message_members (ch : channel)
| message_info (ch : channel) (agent_id : string)
| message_create (ch : channel) (agent_id : string)
| message_send (agent_id : string)
(* the idle sweep *)
| sweep_dispose (now : Z) (index : nat) (userId : string).

(** ** Small operations on the state *)

Definition emit (e : effect) (s : server) : server :=
  {| aiAgentCache := aiAgentCache s;
     pendingAiAgents := pendingAiAgents s;
     trace := e :: trace s |}.

Definition pending_add (agent_id : string) (s : server) : server :=
  {| aiAgentCache := aiAgentCache s;
     pendingAiAgents := {[agent_id]} ∪ pendingAiAgents s;
     trace := trace s |}.

Definition pending_delete (agent_id : string) (s : server) : server :=
  {| aiAgentCache := aiAgentCache s;
     pendingAiAgents := pendingAiAgents s ∖ {[agent_id]};
     trace := trace s |}.

Definition pending_has (agent_id : string) (s : server) : bool :=
  bool_decide (agent_id ∈ pendingAiAgents s).

Definition cache_set (agent_id : string) (agent : AIAgent) (s : server) : server :=
  {| aiAgentCache := Map_set (aiAgentCache s) agent_id agent;
     pendingAiAgents := pendingAiAgents s;
     trace := trace s |}.

Definition cache_delete (agent_id : string) (s : server) : server :=
  {| aiAgentCache := Map_delete (aiAgentCache s) agent_id;
     pendingAiAgents := pendingAiAgents s;
     trace := trace s |}.

Definition cache_has (agent_id : string) (s : server) : bool :=
  Map_has (aiAgentCache s) agent_id.

(** ** Shared pieces of the routes *)

(** Lines 59-65 and 201-207. *)
Definition channel_id_updated (channel_id : string) : string :=
  match split_colon channel_id with
  | _ :: part :: _ => part
  | _ => channel_id
  end.

(** [members.find((member) => !!member.user?.isAIAgent)] *)
Definition is_agent_member (m : member) : bool :=
  match member_user m with
  | Some u => truthy (isAIAgent u)
  | None => false
  end.

(** The agent identity of a channel, or nothing when the route answers 400
    ([!aiAgent || !aiAgent.user?.id]). *)
Definition find_agent_id (members : list member) : option string :=
  match List.find is_agent_member members with
  | Some m =>
      match member_user m with
      | Some u => if String.eqb (user_id u) "" then None else Some (user_id u)
      | None => None
      end
  | None => None
  end.

(** [getAIAgentInfo], after its query has settled ([lib/agent.ts]). *)
Definition getAIAgentInfo (data : option profile) (error : option string)
    (s : server) : option profile * server :=
  match error with
  | Some e => (None, emit (console_error ("Error fetching AI agent info: " +:+ e)) s)
  | None => (data, s)
  end.

(** Lines 88-94 and 226-231. *)
Definition warn_if_absent (agent_id : string) (agentInfo : option profile)
    (s : server) : server :=
  let s :=
    match agentInfo with
    | None =>
        emit (console_warn ("Failed to fetch agent info for " +:+ agent_id
                            +:+ ", using default values")) s
    | Some _ => s
    end in
  emit (console_log "agentInfo") s.

(** The [catch] and [finally] of the two routes that share them
    (lines 125-133 and 282-290). *)
Definition fail_start (agent_id : string) (message : string) (s : server) : server :=
  pending_delete agent_id
    (emit (respond 500 (error_json "Failed to start AI Agent" (Some message)))
       (emit (console_error ("Failed to start AI Agent " +:+ message)) s)).

Definition succeed_start (agent_id : string) (s : server) : server :=
  pending_delete agent_id
    (emit (respond 200 (message_json "AI Agent started")) s).

(** ** The system prompt of [/new-ai-message], lines 237-257 *)

Definition agentProfile (agentInfo : option profile) : completion string :=
  let gender :=
    or_else (match agentInfo with Some p => gender p | None => undefined end)
            (str "female") in
  match agentInfo with
  | None => Throw "Cannot read properties of null (reading 'name')"
  | Some p =>
      let agentProfile :=
        if strict_eq_string gender "female"
        then "You are a virtual girlfried named " +:+ ToString (name p) +:+ "."
        else "You are a virtual boyfriend named " +:+ ToString (name p) +:+ "." in
      Normal
        (agentProfile +:+
           ((((((((("You have personality: "
                    +:+ ToString (personality p))
                   +:+ "and you style is ")
                  +:+ ToString (style p))
                 +:+ ".")
                +:+ "Your traits are: ")
               +:+ ToString (traits p))
              +:+ ToString (unary_plus "Your quirks are: " eq_refl))
             +:+ ToString (quirks p))
            +:+ ".")
           +:+ ("You have a biography: " +:+ ToString (bio p) +:+ "."))
  end.

(** The same prompt written out around the place of the quirks label, for
    comparison: [before_quirks p], then the label, then [after_quirks p]. *)
Definition salutation (p : profile) : string :=
  if strict_eq_string (or_else (gender p) (str "female")) "female"
  then "You are a virtual girlfried named " +:+ ToString (name p) +:+ "."
  else "You are a virtual boyfriend named " +:+ ToString (name p) +:+ ".".

Definition before_quirks (p : profile) : string :=
  salutation p +:+ "You have personality: " +:+ ToString (personality p)
  +:+ "and you style is " +:+ ToString (style p) +:+ "."
  +:+ "Your traits are: " +:+ ToString (traits p).

Definition after_quirks (p : profile) : string :=
  ToString (quirks p) +:+ "." +:+ "You have a biography: "
  +:+ ToString (bio p) +:+ ".".

Definition prompt_with (quirks_label : string) (p : profile) : string :=
  before_quirks p +:+ quirks_label +:+ after_quirks p.

(** ** The routes, one synchronous segment at a time *)

Definition missing_fields (s : server) : server * proc :=
  (emit (respond 400 (error_json "Missing required fields" None)) s, finished).

Definition agent_not_found (s : server) : server * proc :=
  (emit (respond 400 (error_json "AI Agent not found in the channel" None)) s,
   finished).

(** The call of [getAIAgentInfo] up to its await. *)
Definition call_getAIAgentInfo (agent_id : string) (s : server) : server :=
  emit (supabase_single agent_id)
    (emit (console_log ("Getting AI agent info for: " +:+ agent_id)) s).

(** [POST /start-ai-agent] up to its first await (lines 44-71). *)
Definition post_start_ai_agent (b : body) (s : server) : server * proc :=
  let channel_type := default "messaging" (channel_type b) in
  let platform := default "anthropic" (platform b) in
  let s := emit (console_log ("DEBUG: Starting AI Agent for channel_id:  "
                              +:+ default "undefined" (channel_id b))) s in
  match channel_id b with
  | None => missing_fields s
  | Some channel_id =>
      if String.eqb channel_id "" then missing_fields s
      else
        let updated := channel_id_updated channel_id in
        (emit (queryMembers (mkChannel channel_type updated)) s,
         start_members platform channel_type updated)
  end.

(** [POST /stop-ai-agent] up to its first await (lines 139-149). *)
Definition post_stop_ai_agent (b : body) (s : server) : server * proc :=
  match channel_id b with
  | None => missing_fields s
  | Some channel_id =>
      if String.eqb channel_id "" then missing_fields s
      else (emit (queryMembers (mkChannel "messaging" channel_id)) s, stop_members)
  end.

(** [POST /new-ai-message] up to its first await (lines 189-210). *)
Definition post_new_ai_message (b : body) (s : server) : server * proc :=
  let channel_type := default "messaging" (channel_type b) in
  match channel_id b with
  | None => missing_fields s
  | Some channel_id =>
      if String.eqb channel_id "" then missing_fields s
      else
        let ch := mkChannel channel_type (channel_id_updated channel_id) in
        (emit (queryMembers ch) s, message_members ch)
  end.

(** The idle sweep, lines 21-31. *)
Definition inactivityThreshold : Z := 480 * 60 * 1000.

Definition expired (now : Z) (agent : AIAgent) : bool :=
  (now - getLastInteraction agent >? inactivityThreshold)%Z.

(** The [for ... of] loop from iterator position [index] up to the next
    entry to dispose: empty slots and fresh agents are passed over. *)
Fixpoint sweep_scan (now : Z) (slots : MapData AIAgent) (index : nat)
  : option (nat * string * AIAgent) :=
  match slots with
  | [] => None
  | None :: rest => sweep_scan now rest (S index)
  | Some (userId, agent) :: rest =>
      if expired now agent then Some (S index, userId, agent)
      else sweep_scan now rest (S index)
  end.

Definition sweep_from (now : Z) (index : nat) (s : server) : server * proc :=
  match sweep_scan now (drop index (aiAgentCache s)) index with
  | Some (next, userId, agent) =>
      (emit (dispose agent)
         (emit (console_log ("Disposing AI Agent due to inactivity: " +:+ userId)) s),
       sweep_dispose now next userId)
  | None => (s, finished)
  end.

(** The segment a suspended function runs when its promise settles. *)
Definition resume (p : proc) (v : settled) (s : server) : server * proc :=
  match p, v with
  | finished, _ => (s, finished)
  (* lines 71-85: the rejection is not caught *)
  | start_members _ _ _, rejected e => (emit (uncaught_rejection e) s, finished)
  | start_members platform channel_type updated, with_members members =>
      match find_agent_id members with
      | None => agent_not_found s
      | Some agent_id =>
          (call_getAIAgentInfo agent_id s,
           start_info platform channel_type updated agent_id)
      end
  (* lines 85-104 and 120-133; the [addMembers] of line 101 is never
     reached, [aiAgent] being set since line 78 *)
  | start_info _ _ _ _, rejected e => (emit (uncaught_rejection e) s, finished)
  | start_info platform channel_type updated agent_id, with_row data error =>
      let (agentInfo, s) := getAIAgentInfo data error s in
      let s := warn_if_absent agent_id agentInfo s in
      if negb (cache_has agent_id s) && negb (pending_has agent_id s)
      then (emit (watch (mkChannel channel_type updated)) (pending_add agent_id s),
            start_watch platform channel_type updated agent_id agentInfo)
      else (succeed_start agent_id
              (emit (console_log ("AI Agent " +:+ agent_id +:+ " already started")) s),
            finished)
  (* lines 104-112 *)
  | start_watch _ _ _ agent_id _, rejected e => (fail_start agent_id e s, finished)
  | start_watch platform channel_type updated agent_id agentInfo, _ =>
      (emit (createAgent agent_id platform channel_type updated agentInfo) s,
       start_create agent_id)
  (* lines 106-114 *)
  | start_create agent_id, rejected e => (fail_start agent_id e s, finished)
  | start_create agent_id, with_agent agent =>
      (emit (init agent) s, start_init agent_id agent)
  (* lines 114-119, 124 and 131-133 *)
  | start_init agent_id _, rejected e => (fail_start agent_id e s, finished)
  | start_init agent_id agent, _ =>
      if cache_has agent_id s
      then (emit (dispose agent) s, start_dispose agent_id)
      else (succeed_start agent_id (cache_set agent_id agent s), finished)
  (* lines 116, 124 and 131-133 *)
  | start_dispose agent_id, rejected e => (fail_start agent_id e s, finished)
  | start_dispose agent_id, _ => (succeed_start agent_id s, finished)
  (* lines 149-169 *)
  | stop_members, rejected e => (emit (uncaught_rejection e) s, finished)
  | stop_members, with_members members =>
      match find_agent_id members with
      | None => agent_not_found s
      | Some agent_id =>
          match Map_get (aiAgentCache s) agent_id with
          | Some agent => (emit (dispose agent) s, stop_dispose agent_id)
          | None => (emit (respond 200 (message_json "AI Agent stopped")) s, finished)
          end
      end
  (* lines 166-176 *)
  | stop_dispose agent_id, rejected e =>
      (emit (respond 500 (error_json "Failed to stop AI Agent" (Some e)))
         (emit (console_error ("Failed to stop AI Agent " +:+ e)) s),
       finished)
  | stop_dispose agent_id, _ =>
      (emit (respond 200 (message_json "AI Agent stopped")) (cache_delete agent_id s),
       finished)
  (* lines 210-223 *)
  | message_members _, rejected e => (emit (uncaught_rejection e) s, finished)
  | message_members ch, with_members members =>
      match find_agent_id members with
      | None => agent_not_found s
      | Some agent_id => (call_getAIAgentInfo agent_id s, message_info ch agent_id)
      end
  (* lines 223-271 and 282-290 *)
  | message_info _ _, rejected e => (emit (uncaught_rejection e) s, finished)
  | message_info ch agent_id, with_row data error =>
      let (agentInfo, s) := getAIAgentInfo data error s in
      let s := warn_if_absent agent_id agentInfo s in
      match agentProfile agentInfo with
      | Throw e => (fail_start agent_id e s, finished)
      | Normal system => (emit (messages_create system) s, message_create ch agent_id)
      end
  (* lines 273-290 *)
  | message_create _ agent_id, rejected e => (fail_start agent_id e s, finished)
  | message_create ch agent_id, with_message content =>
      match content with
      | [] =>
          (fail_start agent_id "Cannot read properties of undefined (reading 'type')" s,
           finished)
      | text_block text :: _ =>
          if String.eqb text "" then (succeed_start agent_id s, finished)
          else (emit (sendMessage ch text agent_id) s, message_send agent_id)
      | other_block :: _ => (succeed_start agent_id s, finished)
      end
  (* lines 274-290 *)
  | message_send agent_id, rejected e => (fail_start agent_id e s, finished)
  | message_send agent_id, _ => (succeed_start agent_id s, finished)
  (* lines 27-30: the rejection ends the timer callback *)
  | sweep_dispose _ _ _, rejected e => (emit (uncaught_rejection e) s, finished)
  | sweep_dispose now index userId, _ =>
      sweep_from now index (cache_delete userId s)
  (* a value of the wrong shape for the awaited call: not a step *)
  | _, _ => (s, p)
  end.

(** ** The event loop: requests arrive, the timer fires, promises settle *)

Record system : Type := mkSystem {
  state : server;
  procs : list proc
}.

Inductive action : Type :=
| POST_start_ai_agent (b : body)
| POST_stop_ai_agent (b : body)
| POST_new_ai_message (b : body)
| interval (now : Z)
| settle (i : nat) (v : settled).

Definition spawn (r : server * proc) (sys : system) : system :=
  {| state := fst r; procs := procs sys ++ [snd r] |}.

Definition step (sys : system) (a : action) : system :=
  match a with
  | POST_start_ai_agent b => spawn (post_start_ai_agent b (state sys)) sys
  | POST_stop_ai_agent b => spawn (post_stop_ai_agent b (state sys)) sys
  | POST_new_ai_message b => spawn (post_new_ai_message b (state sys)) sys
  | interval now => spawn (sweep_from now 0 (state sys)) sys
  | settle i v =>
      match procs sys !! i with
      | Some p =>
          let r := resume p v (state sys) in
          {| state := fst r; procs := <[i := snd r]> (procs sys) |}
      | None => sys
      end
  end.

Definition exec (actions : list action) (sys : system) : system :=
  fold_left step actions sys.

Definition power_on : system := {| state := boot; procs := [] |}.

(** ** Observers *)

Definition is_createAgent (agent_id : string) (e : effect) : bool :=
  match e with
  | createAgent a _ _ _ _ => String.eqb a agent_id
  | _ => false
  end.

(** How often the factory was invoked for an identity. *)
Definition factory_invocations (agent_id : string) (s : server) : nat :=
  length (List.filter (is_createAgent agent_id) (trace s)).

(** The identity a start request is creating an agent for: it has passed
    the test of line 97 and has not reached its [finally]. *)
Definition creating (p : proc) : option string :=
  match p with
  | start_watch _ _ _ agent_id _
  | start_create agent_id
  | start_init agent_id _
  | start_dispose agent_id => Some agent_id
  | _ => None
  end.

(** The identity a [/new-ai-message] request has resolved. *)
Definition message_agent (p : proc) : option string :=
  match p with
  | message_info _ agent_id
  | message_create _ agent_id
  | message_send agent_id => Some agent_id
  | _ => None
  end.

(** The [try] of [/new-ai-message] is entered by the step [p], [v]. *)
Definition in_try (p : proc) (v : settled) : bool :=
  match p, v with
  | message_info _ _, with_row _ _ => true
  | message_create _ _, (rejected _ | with_message _) => true
  | message_send _, _ => true
  | _, _ => false
  end.

(** No identity is both registered and pending. *)
Definition exclusive (s : server) : Prop :=
  forall agent_id,
    cache_has agent_id s = true -> agent_id ∉ pendingAiAgents s.

Definition is_console_error (e : effect) : bool :=
  match e with console_error _ => true | _ => false end.

Definition is_dispose_of (agent : AIAgent) (e : effect) : bool :=
  match e with
  | dispose a => Nat.eqb (agent_ref a) (agent_ref agent)
  | _ => false
  end.

Definition status_of (e : effect) : option nat :=
  match e with respond status _ => Some status | _ => None end.

End Server.

(** * Runs of the server used below *)

Module Scenarios.
Import JS Server.

Definition agent_member (agent_id : string) : member :=
  {| member_user := Some {| user_id := agent_id; isAIAgent := boolean true |} |}.

Definition human_member (uid : string) : member :=
  {| member_user := Some {| user_id := uid; isAIAgent := undefined |} |}.

Definition c1 : body :=
  {| channel_id := Some "messaging:c1"; channel_type := None; platform := None |}.

Definition c2 : body :=
  {| channel_id := Some "messaging:c2"; channel_type := None; platform := None |}.

Definition members_c1 : list member := [human_member "u1"; agent_member "A1"].
Definition members_c2 : list member := [agent_member "A2"; human_member "u2"].

Definition luna : profile :=
  {| name := str "Luna";
     gender := str "female";
     personality := str "cheerful";
     style := str "casual";
     traits := array [str "kind"; str "witty"];
     quirks := str "hums";
     bio := str "Born in Sofia" |}.

Definition agent1 : AIAgent := {| agent_ref := 1; getLastInteraction := 0 |}.
Definition agent2 : AIAgent := {| agent_ref := 2; getLastInteraction := 0 |}.

(** A start request, as process [i], up to the await of [createAgent]. *)
Definition start_until_create (i : nat) : list action :=
  [POST_start_ai_agent c1;
   settle i (with_members members_c1);
   settle i (with_row (Some luna) None);
   settle i resolved].

(** A start request, as process [i], through the test of line 97. *)
Definition start_through_test (i : nat) : list action :=
  [POST_start_ai_agent c1;
   settle i (with_members members_c1);
   settle i (with_row (Some luna) None)].

(** Three start requests for the channel [c1]: the second one arrives while
    the first is creating the agent, the third after the second is done. *)
Definition three_starts : list action :=
  start_until_create 0 ++ start_through_test 1 ++ start_until_create 2.

(** A start request, as process [i], from arrival to registration. *)
Definition start_to_end (i : nat) (b : body) (members : list member)
    (agent : AIAgent) : list action :=
  [POST_start_ai_agent b;
   settle i (with_members members);
   settle i (with_row (Some luna) None);
   settle i resolved;
   settle i (with_agent agent);
   settle i resolved].

(** Two agents are registered; more than eight hours later the timer fires
    and the disposal of the first agent fails. *)
Definition sweep_with_failure : list action :=
  start_to_end 0 c1 members_c1 agent1
  ++ start_to_end 1 c2 members_c2 agent2
  ++ [interval 28800001; settle 2 (rejected "socket hang up")].

(** A [/new-ai-message] request, as process [i], up to the await of
    [sendMessage]. *)
Definition message_until_send (i : nat) : list action :=
  [POST_new_ai_message c1;
   settle i (with_members members_c1);
   settle i (with_row (Some luna) None);
   settle i (with_message [text_block "Hi!"])].

(** Two start requests for the channel [c1] and, between their tests of
    line 97, a whole [/new-ai-message] request for the same channel. *)
Definition start_message_start : list action :=
  start_until_create 0
  ++ message_until_send 1 ++ [settle 1 resolved]
  ++ start_until_create 2.

(** A [/new-ai-message] request whose profile lookup finds no row. *)
Definition message_without_profile : list action :=
  [POST_new_ai_message c1;
   settle 0 (with_members members_c1);
   settle 0 (with_row None (Some "PGRST116"))].

End Scenarios.

(** * Further observers of a relay session *)

Module RelayObservers.
Import Relay.

(** The texts of the partial updates of a journal, oldest first. *)
Fixpoint update_texts (j : list entry) : list string :=
  match j with
  | [] => []
  | Called (partialUpdateMessage text _) _ :: older => update_texts older ++ [text]
  | _ :: older => update_texts older
  end.

(** [s] starts with [p]. *)
Definition starts_with (s p : string) : Prop := exists rest, s = p +:+ rest.

(** Each string of the list starts with the one before it. *)
Fixpoint growing (l : list string) : Prop :=
  match l with
  | x :: (y :: _) as rest => starts_with y x /\ growing rest
  | _ => True
  end.

(** The updates made so far and, last, the buffer. *)
Definition history (h : handler) : list string :=
  update_texts (journal h) ++ [message_text h].

(** The text deltas of a stream. *)
Fixpoint text_deltas (evs : list RawMessageStreamEvent) : list string :=
  match evs with
  | [] => []
  | content_block_delta (text_delta text) :: rest => text :: text_deltas rest
  | _ :: rest => text_deltas rest
  end.

(** The events that have a [case] in the [switch] of [handle] and get past
    its guard. *)
Definition has_case (ev : RawMessageStreamEvent) : bool :=
  match ev with
  | content_block_start | content_block_delta (text_delta _) | message_stop => true
  | _ => false
  end.

(** The network calls of a journal with their outcomes, most recent first. *)
Fixpoint calls (j : list entry) : list (call * bool) :=
  match j with
  | [] => []
  | Called c r :: older => (c, r) :: calls older
  | _ :: older => calls older
  end.

(** Two handlers that differ at most in what their journals say besides
    the network calls. *)
Definition same_session (h h' : handler) : Prop :=
  message_text h = message_text h'
  /\ chunk_counter h = chunk_counter h'
  /\ calls (journal h) = calls (journal h').

Definition is_rejected_call (e : entry) : bool :=
  match e with Called _ true => true | _ => false end.

Definition rejected_calls (h : handler) : nat :=
  count is_rejected_call (journal h).

(** The number of the last text delta, among the first [k] of a fresh
    session, that the throttle lets through. *)
Definition last_flush (k : nat) : nat :=
  if k <? 8 then (if k mod 2 =? 1 then k else k - 1)
  else if k <? 15 then 7
  else 15 * (k / 15).

(** The number of throttled updates among the first [n] text deltas. *)
Definition flush_count (n : nat) : nat := n / 15 + Nat.min 4 ((n + 1) / 2).

(** The calls that clear the typing indicator. *)
Definition is_clear (e : entry) : bool :=
  match e with Called sendEvent_clear _ => true | _ => false end.

Definition clears (h : handler) : nat := count is_clear (journal h).

End RelayObservers.

(** * Further observers of the server *)

Module ServerObservers.
Import JS Server.

(** [s.includes(':')], lines 60 and 202. *)
Fixpoint has_colon (s : string) : bool :=
  match s with
  | EmptyString => false
  | String c rest => Ascii.eqb c ":"%char || has_colon rest
  end.

(** The keys of the entries of a map, in order. *)
Fixpoint live_keys {V} (m : MapData V) : list string :=
  match m with
  | [] => []
  | Some (k, _) :: rest => k :: live_keys rest
  | None :: rest => live_keys rest
  end.

(** A map holds a key once. *)
Definition Map_wf {V} (m : MapData V) : Prop := NoDup (live_keys m).

(** A map with its idle agents deleted. *)
Fixpoint purge (now : Z) (m : MapData AIAgent) : MapData AIAgent :=
  match m with
  | [] => []
  | Some (k, agent) :: rest =>
      (if expired now agent then None else Some (k, agent)) :: purge now rest
  | None :: rest => None :: purge now rest
  end.

(** The idle agents of a map, in order. *)
Fixpoint idle_agents (now : Z) (m : MapData AIAgent) : list AIAgent :=
  match m with
  | [] => []
  | Some (_, agent) :: rest =>
      if expired now agent then agent :: idle_agents now rest
      else idle_agents now rest
  | None :: rest => idle_agents now rest
  end.

(** The agents disposed in a trace, oldest first. *)
Fixpoint disposed (t : list effect) : list AIAgent :=
  match t with
  | [] => []
  | dispose agent :: older => disposed older ++ [agent]
  | _ :: older => disposed older
  end.

(** A tick of the sweep with nothing else running and every disposal
    resolving: the callback is resumed until it ends, at most [fuel]
    times. *)
Fixpoint sweep_all (fuel : nat) (r : server * proc) : server * proc :=
  match fuel, snd r with
  | S fuel, sweep_dispose _ _ _ => sweep_all fuel (resume (snd r) resolved (fst r))
  | _, _ => r
  end.

(** A state with the trace taken out, and what a segment adds to the
    trace. *)
Definition mute (s : server) : server :=
  {| aiAgentCache := aiAgentCache s;
     pendingAiAgents := pendingAiAgents s;
     trace := [] |}.

Definition emitted (p : proc) (v : settled) (s : server) : list effect :=
  trace (fst (resume p v (mute s))).

Definition is_answer (e : effect) : bool :=
  match e with
  | respond _ _ | uncaught_rejection _ => true
  | _ => false
  end.

(** The answers in a list of effects: responses and rejections that leave
    the handler. *)
Definition answers (t : list effect) : nat := length (List.filter is_answer t).

Definition is_finished (p : proc) : bool :=
  match p with finished => true | _ => false end.

(** A request in progress. *)
Definition is_request (p : proc) : bool :=
  match p with
  | finished | sweep_dispose _ _ _ => false
  | _ => true
  end.

(** The processes whose segments delete from the cache. *)
Definition deletes (p : proc) : bool :=
  match p with
  | stop_dispose _ | sweep_dispose _ _ _ => true
  | _ => false
  end.

(** What [getAIAgentInfo] returns. *)
Definition lookup_result (data : option profile) (error : option string)
  : option profile :=
  match error with
  | Some _ => None
  | None => data
  end.

(** The registry holds every agent id once. *)
Definition cache_wf (s : server) : Prop := Map_wf (aiAgentCache s).

(** A request running alone: its awaits settle, in order, with the values
    of the list, and nothing else runs in between. *)
Fixpoint settle_all (vs : list settled) (r : server * proc) : server * proc :=
  match vs with
  | [] => r
  | v :: vs => settle_all vs (resume (snd r) v (fst r))
  end.

(** Every pending mark has a start request that is creating the agent. *)
Definition marks_are_owned (sys : system) : Prop :=
  forall agent_id,
    agent_id ∈ pendingAiAgents (state sys) ->
    exists i p, procs sys !! i = Some p /\ creating p = Some agent_id.

End ServerObservers.

(** * The handlers, statement by statement *)

Module ServerStatements.
Import JS Server.

(** A statement of a handler that changes one of the two collections or
    can be seen from outside. *)
Inductive statement : Type :=
| outward (e : effect)                                    (* a call, a log, an answer *)
| aiAgentCache_set (agent_id : string) (agent : AIAgent)  (* line 118 *)     
| aiAgentCache_delete (agent_id : string)                 (* lines 28, 167 *)
| pendingAiAgents_add (agent_id : string)                 (* line 98 *)
| pendingAiAgents_delete (agent_id : string).             (* lines 132, 289 *)

Definition execute (st : statement) (s : server) : server :=
  match st with
  | outward e => emit e s
  | aiAgentCache_set agent_id agent => cache_set agent_id agent s
  | aiAgentCache_delete agent_id => cache_delete agent_id s
  | pendingAiAgents_add agent_id => pending_add agent_id s
  | pendingAiAgents_delete agent_id => pending_delete agent_id s
  end.

(** The state after each statement of a list. *)
Fixpoint instants (sts : list statement) (s : server) : list server :=
  match sts with
  | [] => []
  | st :: rest => execute st s :: instants rest (execute st s)
  end.

Definition run_statements (sts : list statement) (s : server) : server :=
  fold_left (fun s st => execute st s) sts s.

(** [catch] and [finally], lines 125-133 and 282-290. *)
Definition catch_finally (agent_id message : string) : list statement :=
  [outward (console_error ("Failed to start AI Agent " +:+ message));
   outward (respond 500 (error_json "Failed to start AI Agent" (Some message)));
   pendingAiAgents_delete agent_id].

(** The answer of line 124 or 281, and the [finally]. *)
Definition answer_finally (agent_id : string) : list statement :=
  [outward (respond 200 (message_json "AI Agent started"));
   pendingAiAgents_delete agent_id].

(** The end of [getAIAgentInfo] and lines 87-94 or 226-231. *)
Definition lookup_statements (agent_id : string) (agentInfo : option profile)
    (error : option string) : list statement :=
  match error with
  | Some e => [outward (console_error ("Error fetching AI agent info: " +:+ e))]
  | None => []
  end
  ++ match agentInfo with
     | None => [outward (console_warn ("Failed to fetch agent info for " +:+ agent_id
                                       +:+ ", using default values"))]
     | Some _ => []
     end
  ++ [outward (console_log "agentInfo")].

Definition not_found_statements : list statement :=
  [outward (respond 400 (error_json "AI Agent not found in the channel" None))].

Definition missing_statements : list statement :=
  [outward (respond 400 (error_json "Missing required fields" None))].

Definition lookup_call_statements (agent_id : string) : list statement :=
  [outward (console_log ("Getting AI agent info for: " +:+ agent_id));
   outward (supabase_single agent_id)].

(** Lines 24-27 from iterator position [index]. *)
Definition sweep_statements (now : Z) (index : nat) (s : server) : list statement :=
  match sweep_scan now (drop index (aiAgentCache s)) index with
  | Some (_, userId, agent) =>
      [outward (console_log ("Disposing AI Agent due to inactivity: " +:+ userId));
       outward (dispose agent)]
  | None => []
  end.

(** The statements of the segment [resume p v s], in program order. *)
Definition statements (p : proc) (v : settled) (s : server) : list statement :=
  match p, v with
  | finished, _ => []
  | start_members _ _ _, rejected e => [outward (uncaught_rejection e)]
  | start_members _ _ _, with_members members =>
      match find_agent_id members with
      | None => not_found_statements
      | Some agent_id => lookup_call_statements agent_id
      end
  | start_info _ _ _ _, rejected e => [outward (uncaught_rejection e)]
  | start_info _ channel_type updated agent_id, with_row data error =>
      lookup_statements agent_id (fst (getAIAgentInfo data error s)) error
      ++ (if negb (cache_has agent_id s) && negb (pending_has agent_id s)
          then [pendingAiAgents_add agent_id;
                outward (watch (mkChannel channel_type updated))]
          else outward (console_log ("AI Agent " +:+ agent_id +:+ " already started"))
               :: answer_finally agent_id)
  | start_watch _ _ _ agent_id _, rejected e => catch_finally agent_id e
  | start_watch platform channel_type updated agent_id agentInfo, _ =>
      [outward (createAgent agent_id platform channel_type updated agentInfo)]
  | start_create agent_id, rejected e => catch_finally agent_id e
  | start_create _, with_agent agent => [outward (init agent)]
  | start_init agent_id _, rejected e => catch_finally agent_id e
  | start_init agent_id agent, _ =>
      if cache_has agent_id s then [outward (dispose agent)]
      else aiAgentCache_set agent_id agent :: answer_finally agent_id
  | start_dispose agent_id, rejected e => catch_finally agent_id e
  | start_dispose agent_id, _ => answer_finally agent_id
  | stop_members, rejected e => [outward (uncaught_rejection e)]
  | stop_members, with_members members =>
      match find_agent_id members with
      | None => not_found_statements
      | Some agent_id =>
          match Map_get (aiAgentCache s) agent_id with
          | Some agent => [outward (dispose agent)]
          | None => [outward (respond 200 (message_json "AI Agent stopped"))]
          end
      end
  | stop_dispose _, rejected e =>
      [outward (console_error ("Failed to stop AI Agent " +:+ e));
       outward (respond 500 (error_json "Failed to stop AI Agent" (Some e)))]
  | stop_dispose agent_id, _ =>
      [aiAgentCache_delete agent_id;
       outward (respond 200 (message_json "AI Agent stopped"))]
  | message_members _, rejected e => [outward (uncaught_rejection e)]
  | message_members _, with_members members =>
      match find_agent_id members with
      | None => not_found_statements
      | Some agent_id => lookup_call_statements agent_id
      end
  | message_info _ _, rejected e => [outward (uncaught_rejection e)]
  | message_info _ agent_id, with_row data error =>
      lookup_statements agent_id (fst (getAIAgentInfo data error s)) error
      ++ match agentProfile (fst (getAIAgentInfo data error s)) with
         | Throw e => catch_finally agent_id e
         | Normal system => [outward (messages_create system)]
         end
  | message_create _ agent_id, rejected e => catch_finally agent_id e
  | message_create ch agent_id, with_message content =>
      match content with
      | [] =>
          catch_finally agent_id
            "Cannot read properties of undefined (reading 'type')"
      | text_block text :: _ =>
          if String.eqb text "" then answer_finally agent_id
          else [outward (sendMessage ch text agent_id)]
      | other_block :: _ => answer_finally agent_id
      end
  | message_send agent_id, rejected e => catch_finally agent_id e
  | message_send agent_id, _ => answer_finally agent_id
  | sweep_dispose _ _ _, rejected e => [outward (uncaught_rejection e)]
  | sweep_dispose now index userId, _ =>
      aiAgentCache_delete userId
      :: sweep_statements now index (cache_delete userId s)
  | _, _ => []
  end.

(** The first segments of the routes. *)
Definition post_start_statements (b : body) : list statement :=
  outward (console_log ("DEBUG: Starting AI Agent for channel_id:  "
                        +:+ default "undefined" (channel_id b)))
  :: match channel_id b with
     | None => missing_statements
     | Some channel_id =>
         if String.eqb channel_id "" then missing_statements
         else [outward (queryMembers
                          (mkChannel (default "messaging" (channel_type b))
                             (channel_id_updated channel_id)))]
     end.

Definition post_stop_statements (b : body) : list statement :=
  match channel_id b with
  | None => missing_statements
  | Some channel_id =>
      if String.eqb channel_id "" then missing_statements
      else [outward (queryMembers (mkChannel "messaging" channel_id))]
  end.

Definition post_message_statements (b : body) : list statement :=
  match channel_id b with
  | None => missing_statements
  | Some channel_id =>
      if String.eqb channel_id "" then missing_statements
      else [outward (queryMembers
                       (mkChannel (default "messaging" (channel_type b))
                          (channel_id_updated channel_id)))]
  end.

(** The statements of a step of the event loop. *)
Definition step_statements (sys : system) (a : action) : list statement :=
  match a with
  | POST_start_ai_agent b => post_start_statements b
  | POST_stop_ai_agent b => post_stop_statements b
  | POST_new_ai_message b => post_message_statements b
  | interval now => sweep_statements now 0 (state sys)
  | settle i v =>
      match procs sys !! i with
      | Some p => statements p v (state sys)
      | None => []
      end
  end.

End ServerStatements.

(** * Strings *)

Module StringFacts.

Lemma string_app_empty_r (s : string) : s +:+ "" = s.
Proof.
  induction s as [|a s IH]; [reflexivity|].
  change (String a (s +:+ "") = String a s). now rewrite IH.
Qed.

Lemma string_app_assoc (s1 s2 s3 : string) : (s1 +:+ s2) +:+ s3 = s1 +:+ (s2 +:+ s3).
Proof.
  induction s1 as [|a s1 IH]; [reflexivity|].
  change (String a ((s1 +:+ s2) +:+ s3) = String a (s1 +:+ (s2 +:+ s3))).
  now rewrite IH.
Qed.

Lemma startsWith_app (t rest : string) : JS.startsWith (t +:+ rest) t = true.
Proof.
  induction t as [|c t IH]; [reflexivity|].
  change (Ascii.eqb c c && JS.startsWith (t +:+ rest) t = true).
  now rewrite Ascii.eqb_refl, IH.
Qed.

Lemma includes_app (before t rest : string) :
  JS.includes (before +:+ t +:+ rest) t = true.
Proof.
  induction before as [|c before IH].
  - change (JS.includes (t +:+ rest) t = true).
    destruct (t +:+ rest) eqn:E; simpl; rewrite <- E, startsWith_app; reflexivity.
  - change (JS.startsWith (String c (before +:+ t +:+ rest)) t
            || JS.includes (before +:+ t +:+ rest) t = true).
    rewrite IH. apply orb_true_r.
Qed.

End StringFacts.

(** * Properties of the streaming relay *)

Module RelayFacts.
Import Relay StringFacts.

(** Case analysis on one [handle]: unfold the monad and split on every
    test the handler makes. *)
Ltac handle_cases :=
  unfold run_one, handle, bind, log, ret, append_text, incr_counter,
    flush_if_due, final_update, await_call; simpl;
  repeat match goal with
         | |- context [if ?b then _ else _] => destruct b eqn:?; simpl
         end.

Section Facts.
Variable rejects : nat -> bool.

(** The buffer only grows, by exactly the text of the event, whatever the
    network does. *)
Lemma run_one_text ev h :
  message_text (run_one rejects ev h) = message_text h +:+ text_of ev.
Proof.
  destruct ev as [| | | |[text|]|]; handle_cases;
    rewrite ?string_app_empty_r; reflexivity.
Qed.

Lemma run_text evs h :
  message_text (run rejects evs h)
  = message_text h +:+ concat_texts (map text_of evs).
Proof.
  revert h; induction evs as [|ev evs IH]; intros h; simpl.
  - now rewrite string_app_empty_r.
  - now rewrite IH, run_one_text, string_app_assoc.
Qed.

Lemma run_app evs1 evs2 h :
  run rejects (evs1 ++ evs2) h = run rejects evs2 (run rejects evs1 h).
Proof. revert h; induction evs1 as [|ev evs1 IH]; intros h; simpl; auto. Qed.

Lemma text_of_deltas texts : map text_of (deltas texts) = texts.
Proof. induction texts as [|t l IH]; simpl; [reflexivity | now rewrite IH]. Qed.

(** The stream-end event always attempts the final update, with the whole
    buffer and [generating = false]. *)
Lemma stop_publishes_buffer h :
  last_partial_update (journal (run_one rejects message_stop h))
  = Some (message_text h, false).
Proof. handle_cases; reflexivity. Qed.

Lemma run_stop_publishes evs h :
  last_partial_update (journal (run rejects (evs ++ [message_stop]) h))
  = Some (message_text h +:+ concat_texts (map text_of evs), false).
Proof.
  rewrite run_app; simpl. now rewrite stop_publishes_buffer, run_text.
Qed.

Lemma run_one_counter_delta text h :
  chunk_counter (run_one rejects (content_block_delta (text_delta text)) h)
  = js_incr (chunk_counter h).
Proof. handle_cases; reflexivity. Qed.

Lemma run_deltas_counter texts h :
  (chunk_counter h + N.of_nat (length texts) <= 2 ^ 53)%N ->
  chunk_counter (run rejects (deltas texts) h)
  = (chunk_counter h + N.of_nat (length texts))%N.
Proof.
  revert h; induction texts as [|t l IH]; intros h Hle; simpl.
  - lia.
  - rewrite IH; rewrite run_one_counter_delta; unfold js_incr;
      simpl length in Hle;
      destruct (N.ltb_spec (chunk_counter h) (2 ^ 53)); lia.
Qed.

End Facts.

(** C1: for every sequence of text deltas delivered to a fresh session and
    ended by the stream-end event, the last partial update carries the
    concatenation of all delta texts in delivery order with
    [generating = false]; this holds whichever network calls, throttled
    flushes included, were rejected on the way. *)
Theorem final_text_is_concatenation (rejects : nat -> bool) (texts : list string) :
  last_partial_update
    (journal (run rejects (deltas texts ++ [message_stop]) fresh))
  = Some (concat_texts texts, false).
Proof.
  rewrite run_stop_publishes, text_of_deltas. reflexivity.
Qed.

Lemma flush_due_policy (c : N) : flush_due c = true <-> policy c.
Proof.
  unfold flush_due, policy.
  rewrite orb_true_iff, andb_true_iff, negb_true_iff, N.eqb_eq, N.ltb_lt,
    N.eqb_neq.
  assert (Hlt : (c mod 2 < 2)%N) by (apply N.mod_lt; lia).
  revert Hlt. generalize (c mod 2)%N (c mod 15)%N. intros r2 r15 Hlt. lia.
Qed.

Lemma delta_flushes rejects text h :
  flushes (run_one rejects (content_block_delta (text_delta text)) h)
  = flushes h + (if flush_due (js_incr (chunk_counter h)) then 1 else 0).
Proof.
  unfold flushes. handle_cases; lia.
Qed.

Lemma delta_last_update rejects text h :
  flush_due (js_incr (chunk_counter h)) = true ->
  last_partial_update
    (journal (run_one rejects (content_block_delta (text_delta text)) h))
  = Some (message_text h +:+ text, true).
Proof.
  intros Hdue. unfold run_one, handle, bind, log, ret, append_text,
    incr_counter, flush_if_due, await_call; simpl.
  rewrite Hdue; simpl. destruct (rejects _); reflexivity.
Qed.

(** C2: a text delta makes a throttled partial update exactly when the
    counter, after its increment, satisfies
    [c mod 15 = 0 \/ (c < 8 /\ c mod 2 = 1)], and the update then carries
    the buffer with the new text; in a fresh session the deltas number 1 to
    30 that flush are exactly the 1st, 3rd, 5th, 7th, 15th and 30th. *)
Theorem flush_exactly_when_policy (rejects : nat -> bool) :
  (forall h text,
     let h' := run_one rejects (content_block_delta (text_delta text)) h in
     let c := chunk_counter h' in
     c = js_incr (chunk_counter h) /\
     (flushes h' = S (flushes h) <-> policy c) /\
     (flushes h' = flushes h <-> ~ policy c) /\
     (policy c ->
      last_partial_update (journal h') = Some (message_text h +:+ text, true)))
  /\
  (forall texts text,
     length texts < 30 ->
     let h := run rejects (deltas texts) fresh in
     let h' := run_one rejects (content_block_delta (text_delta text)) h in
     chunk_counter h' = N.of_nat (S (length texts)) /\
     (flushes h' = S (flushes h)
      <-> In (S (length texts)) [1; 3; 5; 7; 15; 30])).
Proof.
  split.
  - intros h text h' c. subst h' c.
    rewrite run_one_counter_delta, delta_flushes.
    split; [reflexivity|].
    rewrite <- flush_due_policy.
    destruct (flush_due (js_incr (chunk_counter h))) eqn:Hdue.
    + repeat split; try lia; try congruence.
      intros _. now apply delta_last_update.
    + repeat split; try lia; try congruence.
  - intros texts text Hlen h h'. subst h h'.
    rewrite run_one_counter_delta, delta_flushes.
    rewrite run_deltas_counter by (simpl; lia).
    simpl chunk_counter. rewrite N.add_0_l.
    assert (Hc : js_incr (N.of_nat (length texts)) = N.of_nat (S (length texts))).
    { unfold js_incr.
      destruct (N.ltb_spec (N.of_nat (length texts)) (2 ^ 53)); lia. }
    rewrite Hc. split; [reflexivity|].
    generalize (flushes (run rejects (deltas texts) fresh)); intros k.
    remember (length texts) as n eqn:Hn. clear Hn Hc.
    do 30 (destruct n as [|n];
           [match goal with
            | |- context [flush_due ?c] =>
                let v := eval vm_compute in (flush_due c) in
                change (flush_due c) with v
            end; simpl In; intuition lia|]).
    lia.
Qed.

(** Witness for C2: after fourteen deltas the fifteenth flushes, with the
    whole buffer. *)
Lemma flush_exactly_when_policy_witness :
  flushes (run_one never (content_block_delta (text_delta "o"))
             (run never (deltas (replicate 14 "l")) fresh))
  = S (flushes (run never (deltas (replicate 14 "l")) fresh))
  /\ last_partial_update
       (journal (run_one never (content_block_delta (text_delta "o"))
                   (run never (deltas (replicate 14 "l")) fresh)))
     = Some ("llllllllllllllo", true).
Proof.
  split.
  - apply (proj2 (flush_exactly_when_policy never) (replicate 14 "l") "o").
    + simpl. lia.
    + simpl. tauto.
  - apply (proj2 (proj2 (proj2 (proj1 (flush_exactly_when_policy never)
                                  (run never (deltas (replicate 14 "l")) fresh)
                                  "o")))).
    left. reflexivity.
Defined.

(** C6, as the code has it: every block-start event sends the
    "generation started" indicator, so a session has sent as many as it has
    consumed block-start events; a block-start event leaves the buffer and
    the counter alone and makes no partial update. *)
Theorem indicator_on_every_block_start (rejects : nat -> bool) :
  (forall evs h,
     indicator_updates (run rejects evs h)
     = indicator_updates h + block_starts evs)
  /\
  (forall h,
     let h' := run_one rejects content_block_start h in
     message_text h' = message_text h /\
     chunk_counter h' = chunk_counter h /\
     partial_updates h' = partial_updates h).
Proof.
  split.
  - intros evs; induction evs as [|ev evs IH]; intros h; simpl.
    + lia.
    + rewrite IH.
      assert (indicator_updates (run_one rejects ev h)
              = indicator_updates h
                + block_starts [ev]) as ->.
      { unfold indicator_updates.
        destruct ev as [| | | |[text|]|]; handle_cases; lia. }
      destruct ev as [| | | |[text|]|]; simpl; lia.
  - intros h; unfold partial_updates; handle_cases; auto.
Qed.

(** C6, the claim as stated fails: the second block-start event of a
    session sends the indicator again. *)
Lemma second_block_start_sends_indicator :
  indicator_updates
    (run never [content_block_start; content_block_start] fresh) = 2.
Proof. reflexivity. Qed.

Lemma run_one_consumed rejects ev h :
  consumed (journal (run_one rejects ev h)) = consumed (journal h) ++ [ev].
Proof.
  destruct ev as [| | | |[text|]|]; handle_cases; reflexivity.
Qed.

Lemma run_consumed rejects evs h :
  consumed (journal (run rejects evs h)) = consumed (journal h) ++ evs.
Proof.
  revert h; induction evs as [|ev evs IH]; intros h; simpl.
  - now rewrite app_nil_r.
  - rewrite IH, run_one_consumed. now rewrite <- app_assoc.
Qed.

(** C8: when handling one event of the stream throws, [run] logs the error
    to the console and goes on with the events that follow; whatever fails,
    every event of the stream is consumed, in order. *)
Theorem run_survives_handler_errors (rejects : nat -> bool)
    (before after : list RawMessageStreamEvent) (ev : RawMessageStreamEvent)
    (h h' : handler) (e : string) :
  handle rejects ev (run rejects before h) = (Throw e, h') ->
  run rejects (before ++ ev :: after) h
  = run rejects after
      {| message_text := message_text h';
         chunk_counter := chunk_counter h';
         journal := ConsoleError e :: journal h' |}
  /\ consumed (journal (run rejects (before ++ ev :: after) h))
     = consumed (journal h) ++ before ++ ev :: after
  /\ errors_logged (run rejects (before ++ ev :: after) h)
     >= S (errors_logged h').
Proof.
  intros Hthrow.
  assert (Hrun : run rejects (before ++ ev :: after) h
                 = run rejects after
                     {| message_text := message_text h';
                        chunk_counter := chunk_counter h';
                        journal := ConsoleError e :: journal h' |}).
  { rewrite run_app; simpl. unfold run_one. now rewrite Hthrow. }
  split; [exact Hrun|]. split; [apply run_consumed|].
  rewrite Hrun.
  assert (Hmono : forall evs g, errors_logged (run rejects evs g) >= errors_logged g).
  { intros evs; induction evs as [|x evs IH]; intros g; simpl; [lia|].
    specialize (IH (run_one rejects x g)).
    assert (errors_logged (run_one rejects x g) >= errors_logged g).
    { unfold errors_logged.
      destruct x as [| | | |[text|]|]; handle_cases; lia. }
    lia. }
  specialize (Hmono after
    {| message_text := message_text h';
       chunk_counter := chunk_counter h';
       journal := ConsoleError e :: journal h' |}).
  unfold errors_logged in *; simpl in *. lia.
Qed.

(** Witness for C8: the indicator call of a block-start is rejected and
    the two deltas and the stream end that follow are still handled. *)
Lemma run_survives_handler_errors_witness :
  consumed (journal (run always
              ([] ++ content_block_start ::
                 [content_block_delta (text_delta "Hi"); message_stop]) fresh))
  = [content_block_start; content_block_delta (text_delta "Hi"); message_stop].
Proof.
  exact (proj1 (proj2 (run_survives_handler_errors always []
                  [content_block_delta (text_delta "Hi"); message_stop]
                  content_block_start fresh
                  {| message_text := ""; chunk_counter := 0;
                     journal := [Called sendEvent_update true;
                                 Consumed content_block_start] |}
                  "rejected" eq_refl))).
Defined.

End RelayFacts.

(** * Properties of the registry and the routes *)

Module ServerFacts.
Import JS Server ServerStatements Scenarios StringFacts.

(** ** The map *)

Lemma Map_get_set {V} (m : MapData V) k v k' :
  Map_get (Map_set m k v) k' = if String.eqb k k' then Some v else Map_get m k'.
Proof.
  induction m as [|[[k0 v0]|] m IH]; simpl.
  - destruct (String.eqb k k'); reflexivity.
  - destruct (String.eqb_spec k0 k) as [->|Hne]; simpl.
    + destruct (String.eqb k k'); reflexivity.
    + rewrite IH. destruct (String.eqb_spec k0 k') as [->|Hne'];
        [|reflexivity].
      destruct (String.eqb_spec k k'); congruence.
  - apply IH.
Qed.

Lemma Map_has_set {V} (m : MapData V) k v k' :
  Map_has (Map_set m k v) k' = true -> k = k' \/ Map_has m k' = true.
Proof.
  unfold Map_has. rewrite Map_get_set.
  destruct (String.eqb_spec k k'); auto.
Qed.

Lemma Map_has_delete {V} (m : MapData V) k k' :
  Map_has (Map_delete m k) k' = true -> Map_has m k' = true.
Proof.
  unfold Map_has.
  induction m as [|[[k0 v0]|] m IH]; simpl; auto.
  destruct (String.eqb k0 k); simpl.
  - destruct (String.eqb k0 k'); auto.
  - destruct (String.eqb k0 k'); auto.
Qed.

(** ** The pending set and the cache never hold the same identity *)

Lemma exclusive_emit e s : exclusive s -> exclusive (emit e s).
Proof. exact (fun H => H). Qed.

Lemma exclusive_pending_delete agent_id s :
  exclusive s -> exclusive (pending_delete agent_id s).
Proof.
  intros H k Hk. specialize (H k Hk). simpl.
  rewrite elem_of_difference. tauto.
Qed.

(** Line 98: the identity enters the pending set when the cache lacks it. *)
Lemma exclusive_mark e agent_id s :
  negb (cache_has agent_id s) && negb (pending_has agent_id s) = true ->
  exclusive s -> exclusive (emit e (pending_add agent_id s)).
Proof.
  intros Hfree H k Hk.
  apply andb_prop in Hfree as [Hfree _]. apply negb_true_iff in Hfree.
  specialize (H k Hk). simpl.
  rewrite elem_of_union, elem_of_singleton.
  intros [Heq|Hin]; [|tauto].
  subst k. unfold cache_has in *; simpl in *. congruence.
Qed.

Lemma exclusive_cache_delete agent_id s :
  exclusive s -> exclusive (cache_delete agent_id s).
Proof.
  intros H k Hk. apply (H k). unfold cache_has in *; simpl in *.
  now apply Map_has_delete in Hk.
Qed.

(** Line 118 and the [finally] of line 132, which run in one segment. *)
Lemma exclusive_register agent_id agent s :
  exclusive s ->
  exclusive (succeed_start agent_id (cache_set agent_id agent s)).
Proof.
  intros H k Hk. unfold cache_has in Hk; simpl in *.
  rewrite elem_of_difference, elem_of_singleton.
  apply Map_has_set in Hk as [Heq|Hk].
  - intros [_ Hne]. now apply Hne.
  - specialize (H k Hk). tauto.
Qed.

Lemma exclusive_succeed agent_id s :
  exclusive s -> exclusive (succeed_start agent_id s).
Proof. intros H. now apply exclusive_pending_delete, exclusive_emit. Qed.

Lemma exclusive_fail agent_id e s :
  exclusive s -> exclusive (fail_start agent_id e s).
Proof.
  intros H. now apply exclusive_pending_delete, exclusive_emit, exclusive_emit.
Qed.

Lemma exclusive_warn agent_id agentInfo s :
  exclusive s -> exclusive (warn_if_absent agent_id agentInfo s).
Proof. destruct agentInfo; simpl; auto. Qed.

Lemma exclusive_sweep_from now index s :
  exclusive s -> exclusive (fst (sweep_from now index s)).
Proof.
  unfold sweep_from. destruct (sweep_scan _ _ _) as [[[? ?] ?]|]; simpl; auto.
Qed.

Create HintDb excl.
#[local] Hint Resolve exclusive_emit exclusive_pending_delete exclusive_mark
  exclusive_cache_delete exclusive_register exclusive_succeed exclusive_fail
  exclusive_warn exclusive_sweep_from : excl.

(** Split on every test a segment makes. *)
Ltac segment_cases :=
  repeat match goal with
         | |- context [find_agent_id ?m] => destruct (find_agent_id m); simpl
         | |- context [Map_get ?m ?k] => destruct (Map_get m k); simpl
         | |- context [agentProfile ?a] => destruct (agentProfile a); simpl
         | |- context [match ?c with [] => _ | _ :: _ => _ end] =>
             destruct c as [|[?|] ?]; simpl
         | |- context [if ?b then _ else _] => destruct b eqn:?; simpl
         end.

Lemma exclusive_resume p v s : exclusive s -> exclusive (fst (resume p v s)).
Proof.
  intros H.
  destruct p; destruct v; simpl; try (destruct error; simpl);
    segment_cases; unfold agent_not_found, call_getAIAgentInfo; simpl;
    auto 7 with excl.
Qed.

Lemma exclusive_step sys a :
  exclusive (state sys) -> exclusive (state (step sys a)).
Proof.
  intros H. destruct a as [b|b|b|now|i v]; simpl.
  - unfold post_start_ai_agent, missing_fields.
    destruct (channel_id b); simpl; segment_cases; auto with excl.
  - unfold post_stop_ai_agent, missing_fields.
    destruct (channel_id b); simpl; segment_cases; auto with excl.
  - unfold post_new_ai_message, missing_fields.
    destruct (channel_id b); simpl; segment_cases; auto with excl.
  - now apply exclusive_sweep_from.
  - destruct (procs sys !! i); simpl; [now apply exclusive_resume | exact H].
Qed.

Lemma exclusive_exec actions sys :
  exclusive (state sys) -> exclusive (state (exec actions sys)).
Proof.
  revert sys; induction actions as [|a actions IH]; intros sys H; simpl.
  - exact H.
  - apply IH. now apply exclusive_step.
Qed.

Lemma exclusive_boot : exclusive boot.
Proof. intros k Hk. discriminate Hk. Qed.

(** A request that is creating an agent leaves its [finally] with the
    identity out of the pending set. *)
Lemma creating_ends_cleared p v s agent_id :
  creating p = Some agent_id ->
  snd (resume p v s) = finished ->
  agent_id ∉ pendingAiAgents (fst (resume p v s)).
Proof.
  intros Hp. destruct p; simplify_eq/=; destruct v; simpl;
    segment_cases; intros Hend; try discriminate Hend;
    rewrite elem_of_difference, elem_of_singleton; tauto.
Qed.

(** ** The instants inside a segment *)

(** Split on every test a segment makes, in the segment and in its
    statements. *)
Ltac statement_cases :=
  unfold sweep_statements, sweep_from, agent_not_found, call_getAIAgentInfo,
    missing_fields, succeed_start, fail_start, warn_if_absent,
    lookup_statements, catch_finally, answer_finally, not_found_statements,
    missing_statements, lookup_call_statements, execute, cache_has,
    pending_has, cache_set, cache_delete, pending_add, pending_delete, emit;
  simpl;
  repeat match goal with
         | |- context [find_agent_id ?m] => destruct (find_agent_id m); simpl
         | |- context [match Map_get ?m ?k with _ => _ end] =>
             destruct (Map_get m k) eqn:?; simpl
         | |- context [agentProfile ?a] => destruct (agentProfile a); simpl
         | |- context [sweep_scan ?n ?l ?i] =>
             destruct (sweep_scan n l i) as [[[? ?] ?]|]; simpl
         | |- context [match ?c with [] => _ | _ :: _ => _ end] =>
             destruct c as [|[?|] ?]; simpl
         | |- context [if ?b then _ else _] => destruct b eqn:?; simpl
         end.

(** The statements of a segment, run one after the other, give the state
    the segment ends in. *)
Lemma statements_resume p v s :
  run_statements (statements p v s) s = fst (resume p v s).
Proof.
  unfold run_statements.
  destruct p; destruct v; simpl; try (destruct error; simpl);
    try (destruct data; simpl); statement_cases; reflexivity.
Qed.

Lemma step_statements_state sys a :
  run_statements (step_statements sys a) (state sys) = state (step sys a).
Proof.
  destruct a as [b|b|b|now|i v]; simpl.
  - unfold run_statements, post_start_statements, post_start_ai_agent.
    destruct (channel_id b); statement_cases; reflexivity.
  - unfold run_statements, post_stop_statements, post_stop_ai_agent.
    destruct (channel_id b); statement_cases; reflexivity.
  - unfold run_statements, post_message_statements, post_new_ai_message.
    destruct (channel_id b); statement_cases; reflexivity.
  - unfold run_statements. statement_cases; reflexivity.
  - destruct (procs sys !! i); simpl; [apply statements_resume | reflexivity].
Qed.

Ltac overlap_facts :=
  repeat match goal with
         | H : _ ∈ _ ∖ _ |- _ => apply elem_of_difference in H as [H ?]
         | H : _ ∈ _ ∪ _ |- _ => apply elem_of_union in H as [H|H]
         | H : _ ∈ {[ _ ]} |- _ => apply elem_of_singleton in H; subst
         | H : Map_has (Map_delete _ _) _ = true |- _ => apply Map_has_delete in H
         | H : Map_has (Map_set _ _ _) _ = true |- _ =>
             apply Map_has_set in H as [->|H]
         end.

Lemma overlap_only_when_registering p v s s_mid k :
  exclusive s ->
  s_mid ∈ instants (statements p v s) s ->
  cache_has k s_mid = true ->
  k ∈ pendingAiAgents s_mid ->
  (exists agent, p = start_init k agent)
  /\ (forall e, v <> rejected e)
  /\ cache_has k s = false
  /\ k ∈ pendingAiAgents s.
Proof.
  intros Hex. unfold exclusive in Hex.
  destruct p; destruct v; simpl; try (destruct error; simpl);
    try (destruct data; simpl);
    statement_cases; intros Hin Hc Hp;
    repeat (apply elem_of_cons in Hin as [->|Hin]);
    try (apply elem_of_nil in Hin; contradiction);
    simpl in *; overlap_facts.
  all: try (exfalso; eapply Hex; [unfold cache_has; eassumption | eassumption]).
  all: try (exfalso;
            match goal with
            | H : _ ∉ {[ _ ]} |- _ => apply H; now apply elem_of_singleton
            end).
  all: try (exfalso;
            match goal with
            | Hc : Map_has ?m ?k = true,
              Hb : negb (Map_has ?m ?k) && _ = true |- _ =>
                rewrite Hc in Hb; discriminate Hb
            end).
  all: split; [eauto|]; split; [discriminate|]; split; assumption.
Qed.

Lemma instants_last sts s :
  default s (last (instants sts s)) = run_statements sts s.
Proof.
  assert (H : forall sts s,
             last (instants sts s)
             = match sts with [] => None | _ => Some (run_statements sts s) end).
  { clear. induction sts as [|st sts IH]; intros s; [reflexivity|].
    specialize (IH (execute st s)). destruct sts as [|st' sts]; [reflexivity|].
    exact IH. }
  rewrite H. destruct sts; reflexivity.
Qed.

Lemma first_segment_instants sys a s_mid :
  match a with settle _ _ => False | _ => True end ->
  s_mid ∈ instants (step_statements sys a) (state sys) ->
  aiAgentCache s_mid = aiAgentCache (state sys)
  /\ pendingAiAgents s_mid = pendingAiAgents (state sys).
Proof.
  destruct a as [b|b|b|now|i v]; simpl; intros Ha; try contradiction.
  - unfold post_start_statements. destruct (channel_id b); statement_cases;
      intros Hin; repeat (apply elem_of_cons in Hin as [->|Hin]);
      try (apply elem_of_nil in Hin; contradiction); auto.
  - unfold post_stop_statements. destruct (channel_id b); statement_cases;
      intros Hin; repeat (apply elem_of_cons in Hin as [->|Hin]);
      try (apply elem_of_nil in Hin; contradiction); auto.
  - unfold post_message_statements. destruct (channel_id b); statement_cases;
      intros Hin; repeat (apply elem_of_cons in Hin as [->|Hin]);
      try (apply elem_of_nil in Hin; contradiction); auto.
  - statement_cases;
      intros Hin; repeat (apply elem_of_cons in Hin as [->|Hin]);
      try (apply elem_of_nil in Hin; contradiction); auto.
Qed.

Lemma overlap_only_in_registration sys a s_mid agent_id :
  exclusive (state sys) ->
  s_mid ∈ instants (step_statements sys a) (state sys) ->
  cache_has agent_id s_mid = true ->
  agent_id ∈ pendingAiAgents s_mid ->
  exists i agent v,
    a = settle i v
    /\ procs sys !! i = Some (start_init agent_id agent)
    /\ (forall e, v <> rejected e)
    /\ cache_has agent_id (state sys) = false.
Proof.
  intros Hex Hin Hc Hp.
  destruct a as [b|b|b|now|i v].
  1-4: exfalso;
       match type of Hin with
       | context [step_statements ?sy ?a] =>
           destruct (first_segment_instants sy a s_mid I Hin) as [Hcache Hpend]
       end;
       apply (Hex agent_id);
       [unfold cache_has in *; now rewrite <- Hcache | now rewrite <- Hpend].
  simpl in Hin. destruct (procs sys !! i) as [p|] eqn:Hi;
    [|apply elem_of_nil in Hin; contradiction].
  destruct (overlap_only_when_registering p v (state sys) s_mid agent_id
              Hex Hin Hc Hp) as ([agent ->] & Hv & Hfree & _).
  exists i, agent, v. auto.
Qed.

(** C3, as the code has it: in every state the server can reach, whatever
    requests arrive, however the timer fires and the awaited promises
    settle, and at every point where a handler or the timer callback can
    run, that is at every await and at the end of every handler, no
    identity is both in the cache and in the pending set; a start request
    that is creating an agent ends, on its success path and on its failure
    path, with its identity out of the pending set, and a rejection of any
    of the awaited calls of the creation ends it.  Between two such points
    the statements of a segment run one after the other and end in the
    state of the next point; an instant at which an identity is both in the
    cache and in the pending set lies in one place only: in the segment of
    a start request whose [init] has resolved and which registers the
    agent, after [aiAgentCache.set] of line 118 and before the [finally] of
    line 132. *)
Theorem pending_and_active_exclusive :
  (forall actions agent_id,
     cache_has agent_id (state (exec actions power_on)) = true ->
     agent_id ∉ pendingAiAgents (state (exec actions power_on)))
  /\
  (forall p v s agent_id,
     creating p = Some agent_id ->
     snd (resume p v s) = finished ->
     agent_id ∉ pendingAiAgents (fst (resume p v s)))
  /\
  (forall p e s agent_id,
     creating p = Some agent_id ->
     resume p (rejected e) s = (fail_start agent_id e s, finished))
  /\
  (forall actions a,
     default (state (exec actions power_on))
       (last (instants (step_statements (exec actions power_on) a)
                (state (exec actions power_on))))
     = state (exec (actions ++ [a]) power_on))
  /\
  (forall actions a s_mid agent_id,
     s_mid ∈ instants (step_statements (exec actions power_on) a)
               (state (exec actions power_on)) ->
     cache_has agent_id s_mid = true ->
     agent_id ∈ pendingAiAgents s_mid ->
     exists i agent v,
       a = settle i v
       /\ procs (exec actions power_on) !! i = Some (start_init agent_id agent)
       /\ (forall e, v <> rejected e)
       /\ cache_has agent_id (state (exec actions power_on)) = false).
Proof.
  split; [|split; [|split; [|split]]].
  - intros actions. apply exclusive_exec, exclusive_boot.
  - apply creating_ends_cleared.
  - intros p e s agent_id Hp. destruct p; simplify_eq/=; reflexivity.
  - intros actions a. rewrite instants_last, step_statements_state.
    unfold exec. now rewrite fold_left_app.
  - intros actions a s_mid agent_id.
    apply overlap_only_in_registration, exclusive_exec, exclusive_boot.
Qed.

(** Witness for C3: once the start request for channel [c1] is through,
    the agent [A1] is in the cache and not pending; the request that is
    awaiting [init] ends cleared when [init] is rejected; and the instant
    after line 118 of the first start request is one of those the last
    part speaks of. *)
Lemma pending_and_active_exclusive_witness :
  ("A1" ∉ pendingAiAgents
            (state (exec (start_to_end 0 c1 members_c1 agent1) power_on)))
  /\ ("A1" ∉ pendingAiAgents
               (fst (resume (start_init "A1" agent1) (rejected "timeout")
                       (pending_add "A1" boot))))
  /\ (exists i agent v,
        settle 0 resolved = settle i v
        /\ procs (exec (start_until_create 0 ++ [settle 0 (with_agent agent1)])
                    power_on) !! i
           = Some (start_init "A1" agent)
        /\ (forall e, v <> rejected e)
        /\ cache_has "A1"
             (state (exec (start_until_create 0
                           ++ [settle 0 (with_agent agent1)]) power_on))
           = false).
Proof.
  split; [|split].
  - exact (proj1 pending_and_active_exclusive
             (start_to_end 0 c1 members_c1 agent1) "A1" eq_refl).
  - exact (proj1 (proj2 pending_and_active_exclusive)
             (start_init "A1" agent1) (rejected "timeout")
             (pending_add "A1" boot) "A1" eq_refl eq_refl).
  - apply (proj2 (proj2 (proj2 (proj2 pending_and_active_exclusive)))
             (start_until_create 0 ++ [settle 0 (with_agent agent1)])
             (settle 0 resolved)
             (execute (aiAgentCache_set "A1" agent1)
                (state (exec (start_until_create 0
                              ++ [settle 0 (with_agent agent1)]) power_on)))
             "A1").
    + apply elem_of_cons. left. reflexivity.
    + reflexivity.
    + apply (bool_decide_unpack _). vm_compute. exact I.
Defined.

(** C3, the claim as stated fails: a start request for the channel [c1]
    awaits [init]; when [init] resolves, the request runs line 118, line
    124 and the [finally] of line 132 in one go.  After line 118, and still
    when the answer is written, the identity [A1] is both in the cache and
    in the pending set; only the [finally] takes it out of the pending
    set. *)
Lemma registered_while_still_pending :
  let sys := exec (start_until_create 0 ++ [settle 0 (with_agent agent1)])
               power_on in
  procs sys !! 0 = Some (start_init "A1" agent1)
  /\ step_statements sys (settle 0 resolved)
     = [aiAgentCache_set "A1" agent1;
        outward (respond 200 (message_json "AI Agent started"));
        pendingAiAgents_delete "A1"]
  /\ List.map (fun s => (cache_has "A1" s, pending_has "A1" s))
       (instants (step_statements sys (settle 0 resolved)) (state sys))
     = [(true, true); (true, true); (true, false)]
  /\ exists s_mid,
       instants (step_statements sys (settle 0 resolved)) (state sys) !! 0
       = Some s_mid
       /\ cache_has "A1" s_mid = true
       /\ "A1" ∈ pendingAiAgents s_mid
       /\ ~ exclusive s_mid.
Proof.
  cbv zeta. split; [reflexivity|]. split; [reflexivity|].
  split; [vm_compute; reflexivity|].
  eexists. split; [reflexivity|].
  assert (Hin : "A1" ∈ pendingAiAgents
                  (execute (aiAgentCache_set "A1" agent1)
                     (state (exec (start_until_create 0
                                   ++ [settle 0 (with_agent agent1)]) power_on))))
    by (apply (bool_decide_unpack _); vm_compute; exact I).
  split; [reflexivity|]. split; [exact Hin|].
  intros Hex. exact (Hex "A1" eq_refl Hin).
Qed.

(** ** Single flight *)

(** The test of line 97 does gate the factory: a start request that finds
    the identity in the cache or in the pending set ends at once and
    invokes nothing. *)
Lemma active_or_pending_skips_factory platform channel_type updated agent_id
    data error s :
  (cache_has agent_id s || pending_has agent_id s) = true ->
  let r := resume (start_info platform channel_type updated agent_id)
             (with_row data error) s in
  snd r = finished
  /\ forall k, factory_invocations k (fst r) = factory_invocations k s.
Proof.
  intros Hbusy r. subst r. simpl.
  destruct error as [e|]; simpl;
    (match goal with
     | |- context [if ?b then _ else _] =>
         replace b with false
           by (symmetry; apply orb_true_iff in Hbusy as [Hc|Hp];
               destruct data; unfold cache_has, pending_has in *; simpl in *;
               rewrite ?Hc, ?Hp; simpl; auto using andb_false_r)
     end);
    simpl; (split; [reflexivity|]); intros k; destruct data; reflexivity.
Qed.

(** C4, where the code departs from it: three start requests for one
    channel.  The second arrives while the first awaits [createAgent],
    takes the "already started" branch and, in its [finally], deletes the
    pending mark of the first; the third then passes the test of line 97
    and invokes the factory while the first has not finished: two
    overlapping start requests, two factory invocations.  The same happens
    with two start requests when a [/new-ai-message] request for the
    channel ends between their tests. *)
Theorem overlapping_starts_invoke_factory_twice :
  factory_invocations "A1" (state (exec three_starts power_on)) = 2
  /\ procs (exec three_starts power_on)
     = [start_create "A1"; finished; start_create "A1"]
  /\ pending_has "A1"
       (state (exec (start_until_create 0 ++ start_through_test 1) power_on))
     = false
  /\ factory_invocations "A1" (state (exec start_message_start power_on)) = 2
  /\ procs (exec start_message_start power_on)
     = [start_create "A1"; finished; start_create "A1"].
Proof. vm_compute. auto 6. Qed.

(** ** The profile lookup *)

(** C5, where the code departs from it: when the profile lookup yields
    null, [/new-ai-message] logs the warning about default values and then
    reads [agentInfo.name]; the TypeError is caught and the request is
    answered with status 500. *)
Theorem null_profile_answers_500 :
  (forall ch agent_id error s,
     let r := resume (message_info ch agent_id) (with_row None error) s in
     snd r = finished
     /\ head (trace (fst r))
        = Some (respond 500
                  (error_json "Failed to start AI Agent"
                     (Some "Cannot read properties of null (reading 'name')")))
     /\ In (console_warn ("Failed to fetch agent info for " +:+ agent_id
                          +:+ ", using default values"))
           (trace (fst r)))
  /\ List.map status_of (trace (state (exec message_without_profile power_on)))
     = [Some 500; None; None; None; None; None; None; None].
Proof.
  split; [|vm_compute; reflexivity].
  intros ch agent_id error s r. subst r.
  destruct error; simpl; auto 10.
Qed.

(** ** The idle sweep *)

(** C7, the defect: the sweep has no error handling.  The stop route wraps
    the disposal of an agent in [try]/[catch] and writes the failure to the
    console; the timer callback awaits the same call unguarded.  When the
    disposal of an instance is rejected, the rejection leaves the callback
    uncaught: nothing is logged, and the loop is left.  In the run below
    two agents are registered and both have been idle for more than eight
    hours when the timer fires; the disposal of the first is rejected; the
    last thing the server does is to let the rejection go, no error was
    written to the console, and the second agent was never disposed.  What
    the runtime does with the unhandled rejection is not the program's. *)
Theorem failed_sweep_disposal_is_uncaught :
  (forall now index userId e s,
     resume (sweep_dispose now index userId) (rejected e) s
     = (emit (uncaught_rejection e) s, finished))
  /\ (forall agent_id e s,
        In (console_error ("Failed to stop AI Agent " +:+ e))
           (trace (fst (resume (stop_dispose agent_id) (rejected e) s))))
  /\ expired 28800001 agent1 = true
  /\ expired 28800001 agent2 = true
  /\ head (trace (state (exec sweep_with_failure power_on)))
     = Some (uncaught_rejection "socket hang up")
  /\ List.filter is_console_error
       (trace (state (exec sweep_with_failure power_on))) = []
  /\ List.filter (is_dispose_of agent2)
       (trace (state (exec sweep_with_failure power_on))) = [].
Proof.
  split; [reflexivity|]. split; [intros; simpl; auto|].
  vm_compute. auto 6.
Qed.

(** ** The system prompt *)

Lemma agentProfile_shape (p : profile) :
  agentProfile (Some p) = Normal (prompt_with "NaN" p).
Proof.
  unfold agentProfile, prompt_with, before_quirks, after_quirks, salutation,
    unary_plus.
  change (ToString (number "NaN")) with "NaN".
  destruct (strict_eq_string _ _); f_equal;
    rewrite !string_app_assoc; reflexivity.
Qed.

(** C9: for every non-null profile, the system prompt [/new-ai-message]
    builds and passes to the completion call has the text [NaN] where the
    label of the quirks was written: right after the traits and right
    before the quirks.  It is not the prompt with the label, and the [NaN]
    is what the unary plus makes of the label. *)
Theorem system_prompt_has_NaN_for_quirks_label (p : profile) :
  agentProfile (Some p)
  = Normal (before_quirks p +:+ "NaN" +:+ after_quirks p)
  /\ includes (prompt_with "NaN" p) "NaN" = true
  /\ prompt_with "NaN" p <> prompt_with "Your quirks are: " p
  /\ ToString (unary_plus "Your quirks are: " eq_refl) = "NaN"
  /\ (forall ch agent_id s,
        resume (message_info ch agent_id) (with_row (Some p) None) s
        = (emit (messages_create (prompt_with "NaN" p))
             (warn_if_absent agent_id (Some p) s),
           message_create ch agent_id)).
Proof.
  split; [apply agentProfile_shape|].
  split; [apply includes_app|].
  split.
  { unfold prompt_with. intros Heq.
    apply (inj (String.app (before_quirks p))) in Heq. discriminate Heq. }
  split; [reflexivity|].
  intros ch agent_id s. cbv [resume getAIAgentInfo].
  now rewrite agentProfile_shape.
Qed.

(** Witness for C9: the prompt built for the profile [luna]. *)
Lemma system_prompt_has_NaN_for_quirks_label_witness :
  agentProfile (Some luna)
  = Normal ("You are a virtual girlfried named Luna."
            +:+ "You have personality: cheerfuland you style is casual."
            +:+ "Your traits are: kind,wittyNaNhums."
            +:+ "You have a biography: Born in Sofia.").
Proof. exact (proj1 (system_prompt_has_NaN_for_quirks_label luna)). Defined.

(** ** The [finally] of [/new-ai-message] *)

Lemma message_never_adds p v s :
  message_agent p <> None \/ (exists ch, p = message_members ch) ->
  pendingAiAgents (fst (resume p v s)) ⊆ pendingAiAgents s.
Proof.
  intros [Hp|[ch ->]].
  - destruct p; try (now destruct Hp); destruct v; simpl;
      try (destruct error; simpl); segment_cases;
      intros k; rewrite ?elem_of_difference; tauto.
  - destruct v; simpl; segment_cases; intros k; tauto.
Qed.

(** C10: a [/new-ai-message] request that has entered its [try] ends, on
    the success path and on the failure path, by deleting the agent
    identity from the pending set; no segment of the route adds to the
    set.  So the request can delete the mark of a start request that is
    still running: in the run below the start request awaits [createAgent]
    with [A1] pending, the message request ends, and [A1] is pending no
    more while the start request has not moved. *)
Theorem new_ai_message_clears_pending :
  (forall p v s agent_id,
     message_agent p = Some agent_id ->
     in_try p v = true ->
     snd (resume p v s) = finished ->
     agent_id ∉ pendingAiAgents (fst (resume p v s)))
  /\
  (forall b s, pendingAiAgents (fst (post_new_ai_message b s)) = pendingAiAgents s)
  /\
  (forall p v s,
     message_agent p <> None \/ (exists ch, p = message_members ch) ->
     pendingAiAgents (fst (resume p v s)) ⊆ pendingAiAgents s)
  /\
  (pending_has "A1"
     (state (exec (start_until_create 0 ++ message_until_send 1) power_on))
   = true
   /\ pending_has "A1"
        (state (exec (start_until_create 0 ++ message_until_send 1
                      ++ [settle 1 resolved]) power_on))
      = false
   /\ procs (exec (start_until_create 0 ++ message_until_send 1
                   ++ [settle 1 resolved]) power_on)
      = [start_create "A1"; finished]).
Proof.
  split; [|split; [|split]].
  - intros p v s agent_id Hp Htry.
    destruct p; simplify_eq/=; destruct v; simplify_eq/=;
      try (destruct error; simpl); segment_cases;
      intros Hend; try discriminate Hend;
      rewrite elem_of_difference, elem_of_singleton; tauto.
  - intros b s. unfold post_new_ai_message, missing_fields.
    destruct (channel_id b); simpl; segment_cases; reflexivity.
  - apply message_never_adds.
  - vm_compute. auto.
Qed.

(** Witness for C10: the request awaits [sendMessage] with [A1] pending
    (a start request put it there); the send is rejected and the [catch]
    and [finally] run. *)
Lemma new_ai_message_clears_pending_witness :
  "A1" ∉ pendingAiAgents
           (fst (resume (message_send "A1") (rejected "429")
                   (pending_add "A1" boot))).
Proof.
  exact (proj1 new_ai_message_clears_pending
           (message_send "A1") (rejected "429") (pending_add "A1" boot) "A1"
           eq_refl eq_refl eq_refl).
Defined.

End ServerFacts.

From Stdlib Require Import ZifyNat ZifyN.

(** * More on the streaming relay *)

Module RelayMore.
Import Relay RelayObservers StringFacts RelayFacts.

(** ** Arithmetic of the throttle *)

Lemma flush_due_nat (k : nat) :
  flush_due (N.of_nat k)
  = (k mod 15 =? 0) || ((k <? 8) && negb (k mod 2 =? 0)).
Proof.
  unfold flush_due.
  destruct (N.eqb_spec (N.of_nat k mod 15) 0), (Nat.eqb_spec (k mod 15) 0),
    (N.ltb_spec (N.of_nat k) 8), (Nat.ltb_spec k 8),
    (N.eqb_spec (N.of_nat k mod 2) 0), (Nat.eqb_spec (k mod 2) 0);
    try reflexivity; exfalso; lia.
Qed.

Lemma last_flush_due (k : nat) :
  flush_due (N.of_nat (S k)) = true -> last_flush (S k) = S k.
Proof.
  rewrite flush_due_nat. unfold last_flush.
  destruct (Nat.eqb_spec (S k mod 15) 0), (Nat.ltb_spec (S k) 8),
    (Nat.eqb_spec (S k mod 2) 0), (Nat.eqb_spec (S k mod 2) 1),
    (Nat.ltb_spec (S k) 15);
    cbn [orb andb negb]; intros; try discriminate; try lia.
Qed.

Lemma last_flush_not_due (k : nat) :
  flush_due (N.of_nat (S k)) = false ->
  last_flush (S k) = last_flush k /\ 1 <= k.
Proof.
  rewrite flush_due_nat. unfold last_flush.
  destruct (Nat.eqb_spec (S k mod 15) 0), (Nat.ltb_spec (S k) 8),
    (Nat.eqb_spec (S k mod 2) 0), (Nat.eqb_spec (S k mod 2) 1),
    (Nat.ltb_spec (S k) 15), (Nat.ltb_spec k 8), (Nat.eqb_spec (k mod 2) 1),
    (Nat.ltb_spec k 15);
    cbn [orb andb negb]; intros; try discriminate; try lia.
Qed.

Lemma last_flush_bounds (k : nat) :
  1 <= k -> 1 <= last_flush k <= k /\ k - last_flush k <= 14.
Proof.
  unfold last_flush.
  destruct (Nat.ltb_spec k 8), (Nat.eqb_spec (k mod 2) 1), (Nat.ltb_spec k 15);
    intros; lia.
Qed.

Lemma flush_count_step (n : nat) :
  flush_count (S n)
  = flush_count n + (if flush_due (N.of_nat (S n)) then 1 else 0).
Proof.
  rewrite flush_due_nat. unfold flush_count.
  destruct (Nat.eqb_spec (S n mod 15) 0), (Nat.ltb_spec (S n) 8),
    (Nat.eqb_spec (S n mod 2) 0); cbn [orb andb negb]; lia.
Qed.

(** ** Streams of text deltas, one delta at a time *)

Lemma deltas_snoc (texts : list string) (text : string) :
  deltas (texts ++ [text]) = deltas texts ++ [content_block_delta (text_delta text)].
Proof. unfold deltas. now rewrite map_app. Qed.

Lemma concat_texts_snoc (texts : list string) (text : string) :
  concat_texts (texts ++ [text]) = concat_texts texts +:+ text.
Proof.
  induction texts as [|t l IH]; simpl.
  - now rewrite string_app_empty_r.
  - now rewrite IH, string_app_assoc.
Qed.

Lemma run_snoc rejects texts text :
  run rejects (deltas (texts ++ [text])) fresh
  = run_one rejects (content_block_delta (text_delta text))
      (run rejects (deltas texts) fresh).
Proof. now rewrite deltas_snoc, run_app. Qed.

Lemma counter_after_deltas rejects texts :
  (N.of_nat (length texts) <= 2 ^ 53)%N ->
  chunk_counter (run rejects (deltas texts) fresh) = N.of_nat (length texts).
Proof.
  intros Hle. rewrite run_deltas_counter; simpl; lia.
Qed.

Lemma incr_after_deltas (n : nat) :
  (N.of_nat (S n) <= 2 ^ 53)%N -> js_incr (N.of_nat n) = N.of_nat (S n).
Proof.
  intros Hle. unfold js_incr.
  destruct (N.ltb_spec (N.of_nat n) (2 ^ 53)); lia.
Qed.

(** ** How many updates, and how stale *)

(** X1: in a fresh session that receives [n] text deltas, the handler makes
    exactly [n / 15 + min 4 ((n + 1) / 2)] throttled partial updates,
    whichever of them the network rejects: one for each of the deltas 1, 3,
    5 and 7 and one for every fifteenth, so never more than [n / 15 + 4]. *)
Theorem throttled_update_count (rejects : nat -> bool) (texts : list string) :
  (N.of_nat (length texts) <= 2 ^ 53)%N ->
  flushes (run rejects (deltas texts) fresh) = flush_count (length texts)
  /\ flushes (run rejects (deltas texts) fresh) <= length texts / 15 + 4.
Proof.
  intros Hle.
  assert (Heq : flushes (run rejects (deltas texts) fresh)
                = flush_count (length texts)).
  { induction texts as [|text texts IH] using rev_ind; [reflexivity|].
    rewrite length_app in *. simpl length in *.
    replace (length texts + 1) with (S (length texts)) in * by lia.
    rewrite run_snoc, delta_flushes, IH by lia.
    rewrite counter_after_deltas by lia.
    rewrite incr_after_deltas by lia.
    now rewrite flush_count_step. }
  split; [exact Heq|]. rewrite Heq. unfold flush_count. lia.
Qed.

(** Witness for X1: forty deltas, six updates. *)
Lemma throttled_update_count_witness :
  flushes (run never (deltas (replicate 40 "a")) fresh) = 6.
Proof.
  exact (proj1 (throttled_update_count never (replicate 40 "a")
                  ltac:(vm_compute; discriminate))).
Defined.

Lemma delta_not_due_keeps_update rejects text h :
  flush_due (js_incr (chunk_counter h)) = false ->
  last_partial_update
    (journal (run_one rejects (content_block_delta (text_delta text)) h))
  = last_partial_update (journal h).
Proof.
  intros Hdue. unfold run_one, handle, bind, log, ret, append_text,
    incr_counter, flush_if_due, await_call; simpl.
  now rewrite Hdue.
Qed.

Lemma last_update_after_deltas rejects texts :
  (N.of_nat (length texts) <= 2 ^ 53)%N ->
  last_partial_update (journal (run rejects (deltas texts) fresh))
  = match texts with
    | [] => None
    | _ => Some (concat_texts (take (last_flush (length texts)) texts), true)
    end.
Proof.
  induction texts as [|text texts IH] using rev_ind; intros Hle; [reflexivity|].
  rewrite length_app in *. simpl length in *.
  replace (length texts + 1) with (S (length texts)) in * by lia.
  assert (Hc : js_incr (chunk_counter (run rejects (deltas texts) fresh))
               = N.of_nat (S (length texts))).
  { rewrite counter_after_deltas by lia. apply incr_after_deltas; lia. }
  rewrite run_snoc.
  destruct (flush_due (N.of_nat (S (length texts)))) eqn:Hdue.
  - rewrite delta_last_update by (now rewrite Hc).
    rewrite run_text, text_of_deltas, last_flush_due by exact Hdue.
    replace (S (length texts)) with (length (texts ++ [text]))
      by (rewrite length_app; simpl; lia).
    rewrite firstn_all, concat_texts_snoc.
    change (message_text fresh) with "".
    destruct texts; reflexivity.
  - rewrite delta_not_due_keeps_update by (now rewrite Hc).
    destruct (last_flush_not_due _ Hdue) as [Hlf Hpos].
    rewrite IH by lia. rewrite Hlf.
    destruct texts as [|t0 texts0] eqn:Etexts; [simpl in Hpos; lia|].
    rewrite <- Etexts in *.
    assert (Hb := last_flush_bounds (length texts) Hpos).
    rewrite take_app_le by lia.
    destruct (texts ++ [text]) eqn:E; [|reflexivity].
    apply (f_equal length) in E. rewrite length_app in E. simpl in E. lia.
Qed.

(** X2: while a fresh session receives text deltas, the text last sent to
    the chat message is never more than fourteen deltas behind the buffer:
    after [k >= 1] deltas the last partial update carries the concatenation
    of the first [last_flush k] deltas, where
    [k - 14 <= last_flush k <= k]. *)
Theorem published_text_lags_at_most_14 (rejects : nat -> bool)
    (texts : list string) :
  texts <> [] ->
  (N.of_nat (length texts) <= 2 ^ 53)%N ->
  last_partial_update (journal (run rejects (deltas texts) fresh))
  = Some (concat_texts (take (last_flush (length texts)) texts), true)
  /\ 1 <= last_flush (length texts) <= length texts
  /\ length texts - last_flush (length texts) <= 14.
Proof.
  intros Hne Hle. split.
  - rewrite last_update_after_deltas by exact Hle.
    destruct texts; [now destruct Hne | reflexivity].
  - apply last_flush_bounds. destruct texts; [now destruct Hne | simpl; lia].
Qed.

(** Witness for X2: after nine deltas the chat message shows seven. *)
Lemma published_text_lags_at_most_14_witness :
  last_partial_update
    (journal (run never
                (deltas ["a"; "b"; "c"; "d"; "e"; "f"; "g"; "h"; "i"]) fresh))
  = Some ("abcdefg", true).
Proof.
  exact (proj1 (published_text_lags_at_most_14 never
                  ["a"; "b"; "c"; "d"; "e"; "f"; "g"; "h"; "i"]
                  ltac:(discriminate) ltac:(vm_compute; discriminate))).
Defined.

(** ** The chat message only ever grows *)

Lemma starts_with_refl (s : string) : starts_with s s.
Proof. exists "". now rewrite string_app_empty_r. Qed.

Lemma starts_with_trans (s t u : string) :
  starts_with s t -> starts_with t u -> starts_with s u.
Proof.
  intros [r1 ->] [r2 ->]. exists (r2 +:+ r1). apply string_app_assoc.
Qed.

Lemma starts_with_app (s t : string) : starts_with (s +:+ t) s.
Proof. now exists t. Qed.

Lemma growing_extend_last (l : list string) (x y : string) :
  growing (l ++ [x]) -> starts_with y x -> growing (l ++ [y]).
Proof.
  induction l as [|a l IH]; intros Hg Hxy; [exact I|].
  destruct l as [|b l].
  - simpl in *. split; [|exact I].
    apply starts_with_trans with x; tauto.
  - destruct Hg as [Hab Hg]. split; [exact Hab|]. now apply IH.
Qed.

Lemma growing_repeat_last (l : list string) (x : string) :
  growing (l ++ [x]) -> growing ((l ++ [x]) ++ [x]).
Proof.
  induction l as [|a l IH]; intros Hg.
  - simpl. split; [apply starts_with_refl | exact I].
  - destruct l as [|b l].
    + simpl in *. destruct Hg as [Hax _].
      split; [exact Hax|]. split; [apply starts_with_refl | exact I].
    + destruct Hg as [Hab Hg]. split; [exact Hab|]. now apply IH.
Qed.

Lemma growing_tail (a : string) (l : list string) :
  growing (a :: l) -> growing l.
Proof. destruct l; [intros; exact I | intros [_ Hg]; exact Hg]. Qed.

Lemma growing_head (l : list string) (a : string) (n : nat) (z : string) :
  growing (a :: l) -> l !! n = Some z -> starts_with z a.
Proof.
  revert a n; induction l as [|b l IH]; intros a n Hg Hn; [discriminate|].
  destruct Hg as [Hab Hg]. destruct n as [|n]; simpl in Hn.
  - now inversion Hn; subst.
  - apply starts_with_trans with b; [|exact Hab]. now apply (IH b n).
Qed.

Lemma growing_lookup (l : list string) (i j : nat) (x y : string) :
  growing l -> i <= j -> l !! i = Some x -> l !! j = Some y ->
  starts_with y x.
Proof.
  revert i j; induction l as [|a l IH]; intros i j Hg Hij Hi Hj;
    [discriminate|].
  destruct i as [|i], j as [|j]; simpl in *; try lia.
  - inversion Hi; inversion Hj; subst. apply starts_with_refl.
  - inversion Hi; subst. now apply (growing_head l x j).
  - apply (IH i j); auto with lia. now apply growing_tail in Hg.
Qed.

Lemma run_one_growing rejects ev h :
  growing (history h) -> growing (history (run_one rejects ev h)).
Proof.
  unfold history. intros Hg.
  destruct ev as [| | | |[text|]|]; handle_cases; auto;
    try (apply growing_repeat_last);
    first [ exact Hg
          | eapply growing_extend_last; [exact Hg | apply starts_with_app] ].
Qed.

Lemma run_growing rejects evs h :
  growing (history h) -> growing (history (run rejects evs h)).
Proof.
  revert h; induction evs as [|ev evs IH]; intros h Hg; simpl; auto.
  apply IH. now apply run_one_growing.
Qed.

(** X3: in a session, whatever the stream delivers and whatever the network
    rejects, the text of every partial update starts with the text of every
    earlier one, and the buffer starts with all of them: what was once sent
    to the chat message is never taken back or changed. *)
Theorem updates_only_grow (rejects : nat -> bool)
    (evs : list RawMessageStreamEvent) (i j : nat) (earlier later : string) :
  i <= j ->
  history (run rejects evs fresh) !! i = Some earlier ->
  history (run rejects evs fresh) !! j = Some later ->
  starts_with later earlier.
Proof.
  intros Hij Hi Hj.
  apply (growing_lookup (history (run rejects evs fresh)) i j); auto.
  apply run_growing. simpl. exact I.
Qed.

(** Witness for X3: the update of the first delta and the final update. *)
Lemma updates_only_grow_witness : starts_with "Hello" "He".
Proof.
  exact (updates_only_grow never
           (deltas ["He"; "llo"] ++ [message_stop]) 0 1 "He" "Hello"
           ltac:(lia) eq_refl eq_refl).
Defined.

(** ** What the counter counts *)

Lemma run_one_counter rejects ev h :
  chunk_counter (run_one rejects ev h)
  = match ev with
    | content_block_delta (text_delta _) => js_incr (chunk_counter h)
    | _ => chunk_counter h
    end.
Proof. destruct ev as [| | | |[text|]|]; handle_cases; reflexivity. Qed.

(** X4: for any stream, the counter is the number of text deltas handled
    (as long as that is below 2^53) and the buffer is their concatenation
    in order; block starts, block stops, message events and deltas that are
    not text count for nothing. *)
Theorem counter_counts_text_deltas (rejects : nat -> bool)
    (evs : list RawMessageStreamEvent) (h : handler) :
  (chunk_counter h + N.of_nat (length (text_deltas evs)) <= 2 ^ 53)%N ->
  chunk_counter (run rejects evs h)
  = (chunk_counter h + N.of_nat (length (text_deltas evs)))%N
  /\ message_text (run rejects evs h)
     = message_text h +:+ concat_texts (text_deltas evs).
Proof.
  revert h; induction evs as [|ev evs IH]; intros h Hle.
  - simpl. rewrite string_app_empty_r. split; [lia | reflexivity].
  - simpl run.
    specialize (IH (run_one rejects ev h)).
    rewrite run_one_counter, run_one_text in IH.
    destruct ev as [| | | |[text|]|]; cbn [text_deltas text_of] in *;
      rewrite ?string_app_empty_r in IH; try exact (IH Hle).
    cbn [length] in Hle.
    assert (Hi : js_incr (chunk_counter h) = (chunk_counter h + 1)%N).
    { unfold js_incr. destruct (N.ltb_spec (chunk_counter h) (2 ^ 53)); lia. }
    rewrite Hi in IH. destruct IH as [IHc IHt]; [lia|].
    rewrite IHc, IHt. split; [cbn [length]; lia|].
    cbn [concat_texts fold_right]. now rewrite string_app_assoc.
Qed.

(** Witness for X4: two text deltas among six events. *)
Lemma counter_counts_text_deltas_witness :
  chunk_counter
    (run never [message_start; content_block_start;
                content_block_delta (text_delta "Hi");
                content_block_delta other_delta;
                content_block_delta (text_delta "!");
                content_block_stop] fresh) = 2%N.
Proof.
  exact (proj1 (counter_counts_text_deltas never
                  [message_start; content_block_start;
                   content_block_delta (text_delta "Hi");
                   content_block_delta other_delta;
                   content_block_delta (text_delta "!");
                   content_block_stop] fresh
                  ltac:(vm_compute; discriminate))).
Defined.

(** ** Events without a case *)

Lemma calls_made_length (j : list entry) :
  count is_call j = length (calls j).
Proof.
  induction j as [|[ev|c r|e] j IH]; simpl; auto.
Qed.

Lemma run_one_same rejects ev h h' :
  same_session h h' ->
  same_session (run_one rejects ev h) (run_one rejects ev h').
Proof.
  intros (Ht & Hc & Hcalls).
  assert (Hm : count is_call (journal h) = count is_call (journal h'))
    by (now rewrite !calls_made_length, Hcalls).
  unfold same_session.
  destruct ev as [| | | |[text|]|];
    unfold run_one, handle, bind, log, ret, append_text, incr_counter,
      flush_if_due, final_update, await_call, calls_made; simpl;
    rewrite ?Ht, ?Hc, ?Hm;
    repeat match goal with
           | |- context [if ?b then _ else _] => destruct b eqn:?; simpl
           end;
    rewrite ?Hcalls; auto.
Qed.

Lemma run_one_without_case rejects ev h :
  has_case ev = false -> same_session (run_one rejects ev h) h.
Proof.
  unfold same_session.
  destruct ev as [| | | |[text|]|]; try discriminate; intros _;
    handle_cases; auto.
Qed.

Lemma same_session_trans h1 h2 h3 :
  same_session h1 h2 -> same_session h2 h3 -> same_session h1 h3.
Proof.
  unfold same_session. intros (?&?&?) (?&?&?). repeat split; congruence.
Qed.

Lemma run_same rejects evs h h' :
  same_session h h' ->
  same_session (run rejects evs h) (run rejects (List.filter has_case evs) h').
Proof.
  revert h h'; induction evs as [|ev evs IH]; intros h h' Hs; [exact Hs|].
  simpl. destruct (has_case ev) eqn:Hcase; simpl.
  - apply IH. now apply run_one_same.
  - apply IH. eapply same_session_trans; [|exact Hs].
    now apply run_one_without_case.
Qed.

(** X5: the events the [switch] of [handle] has no case for, and the
    deltas that are not text, change nothing: a stream and the same stream
    without them leave the same buffer, the same counter and the same
    network calls with the same outcomes. *)
Theorem events_without_case_change_nothing (rejects : nat -> bool)
    (evs : list RawMessageStreamEvent) (h : handler) :
  message_text (run rejects evs h)
  = message_text (run rejects (List.filter has_case evs) h)
  /\ chunk_counter (run rejects evs h)
     = chunk_counter (run rejects (List.filter has_case evs) h)
  /\ calls (journal (run rejects evs h))
     = calls (journal (run rejects (List.filter has_case evs) h)).
Proof.
  apply run_same. repeat split.
Qed.

(** ** Rejections and the console *)

Lemma run_one_errors rejects ev h :
  errors_logged (run_one rejects ev h) + rejected_calls h
  = errors_logged h + rejected_calls (run_one rejects ev h).
Proof.
  unfold errors_logged, rejected_calls.
  destruct ev as [| | | |[text|]|]; handle_cases; lia.
Qed.

Lemma stop_clears rejects h :
  clears (run_one rejects message_stop h)
  = clears h + (if rejects (calls_made h) then 0 else 1).
Proof.
  unfold clears, calls_made.
  unfold run_one, handle, bind, log, ret, final_update, await_call, calls_made;
    simpl.
  destruct (rejects (count is_call (journal h))); simpl; [lia|].
  destruct (rejects _); simpl; lia.
Qed.

(** X6: over any stream, [run] writes exactly one error to the console for
    every network call that is rejected, and none otherwise: a rejected
    call ends the handling of its event, is logged, and the stream goes
    on.  At [message_stop] the typing indicator is cleared only when the
    final update went through: when that update is rejected the clear
    event is not sent. *)
Theorem one_console_error_per_rejected_call (rejects : nat -> bool)
    (evs : list RawMessageStreamEvent) (h : handler) :
  errors_logged (run rejects evs h) + rejected_calls h
  = errors_logged h + rejected_calls (run rejects evs h)
  /\ clears (run rejects (evs ++ [message_stop]) h)
     = clears (run rejects evs h)
       + (if rejects (calls_made (run rejects evs h)) then 0 else 1).
Proof.
  split.
  - revert h; induction evs as [|ev evs IH]; intros h; simpl; [lia|].
    specialize (IH (run_one rejects ev h)).
    assert (H1 := run_one_errors rejects ev h). lia.
  - rewrite run_app. apply stop_clears.
Qed.

End RelayMore.

(** * More on the routes, the registry and the sweep *)

Module ServerMore.
Import JS Server ServerObservers Scenarios StringFacts ServerFacts.

(** ** The channel id *)

Lemma rev_app_app (acc s t : string) :
  String.rev_app acc s +:+ t = String.rev_app acc (s +:+ t).
Proof.
  revert s; induction acc as [|c acc IH]; intros s; [reflexivity|].
  simpl. now rewrite IH.
Qed.

Lemma split_no_colon (acc s : string) :
  has_colon s = false ->
  split_colon_go acc s = [String.rev_app acc s].
Proof.
  revert acc; induction s as [|c s IH]; intros acc Hs; [reflexivity|].
  simpl in *. apply orb_false_elim in Hs as [Hc Hs].
  rewrite Hc. now rewrite IH.
Qed.

Lemma split_at_colon (acc p r : string) :
  has_colon p = false ->
  split_colon_go acc (p +:+ ":" +:+ r)
  = String.rev_app acc p :: split_colon_go "" r.
Proof.
  revert acc; induction p as [|c p IH]; intros acc Hp.
  - reflexivity.
  - simpl in Hp. apply orb_false_elim in Hp as [Hc Hp].
    change (String c p +:+ ":" +:+ r) with (String c (p +:+ ":" +:+ r)).
    simpl. rewrite Hc. now rewrite IH.
Qed.

Lemma colon_found (s : string) :
  has_colon s = true ->
  exists p r, s = p +:+ ":" +:+ r /\ has_colon p = false.
Proof.
  induction s as [|c s IH]; [discriminate|].
  simpl. destruct (Ascii.eqb_spec c ":"%char) as [->|Hne]; simpl.
  - intros _. exists "", s. split; reflexivity.
  - intros Hs. destruct (IH Hs) as (p & r & -> & Hp).
    exists (String c p), r. split; [reflexivity|].
    simpl. destruct (Ascii.eqb_spec c ":"%char); [contradiction | exact Hp].
Qed.

Lemma updated_after_colon (p r : string) :
  has_colon p = false ->
  channel_id_updated (p +:+ ":" +:+ r)
  = match split_colon r with
    | part :: _ => part
    | [] => p +:+ ":" +:+ r
    end.
Proof.
  intros Hp. unfold channel_id_updated, split_colon.
  rewrite split_at_colon by exact Hp.
  destruct (split_colon_go "" r); reflexivity.
Qed.

Lemma updated_without_colon (s : string) :
  has_colon s = false -> channel_id_updated s = s.
Proof.
  intros Hs. unfold channel_id_updated, split_colon.
  now rewrite split_no_colon.
Qed.

Lemma updated_type_id (t i : string) :
  has_colon t = false -> has_colon i = false ->
  channel_id_updated (t +:+ ":" +:+ i) = i.
Proof.
  intros Ht Hi. rewrite updated_after_colon by exact Ht.
  unfold split_colon. now rewrite split_no_colon.
Qed.

Lemma updated_drops_rest (t i rest : string) :
  has_colon t = false -> has_colon i = false ->
  channel_id_updated (t +:+ ":" +:+ i +:+ ":" +:+ rest) = i.
Proof.
  intros Ht Hi. rewrite updated_after_colon by exact Ht.
  unfold split_colon. now rewrite split_at_colon.
Qed.

(** X7: the channel id the start and message routes use is the text
    between the first and the second colon of [channel_id]: an id without
    a colon is used as it is, [type:id] gives [id], anything after a second
    colon is dropped, and the result never contains a colon. *)
Theorem channel_id_is_the_second_part :
  (forall s, has_colon s = false -> channel_id_updated s = s)
  /\ (forall t i,
        has_colon t = false -> has_colon i = false ->
        channel_id_updated (t +:+ ":" +:+ i) = i)
  /\ (forall t i rest,
        has_colon t = false -> has_colon i = false ->
        channel_id_updated (t +:+ ":" +:+ i +:+ ":" +:+ rest) = i)
  /\ (forall s, has_colon (channel_id_updated s) = false).
Proof.
  split; [exact updated_without_colon|].
  split; [exact updated_type_id|].
  split; [exact updated_drops_rest|].
  intros s. destruct (has_colon s) eqn:Hs;
    [|now rewrite updated_without_colon].
  destruct (colon_found s Hs) as (p & r & -> & Hp).
  destruct (has_colon r) eqn:Hr.
  - destruct (colon_found r Hr) as (i & rest & -> & Hi).
    now rewrite updated_drops_rest.
  - now rewrite updated_type_id.
Qed.

(** Witness for X7. *)
Lemma channel_id_is_the_second_part_witness :
  channel_id_updated ("messaging" +:+ ":" +:+ "team-7" +:+ ":" +:+ "x") = "team-7".
Proof.
  exact (proj1 (proj2 (proj2 channel_id_is_the_second_part))
           "messaging" "team-7" "x" eq_refl eq_refl).
Defined.

Lemma with_colon_not_empty (t i : string) :
  String.eqb (t +:+ ":" +:+ i) "" = false.
Proof. destruct t; reflexivity. Qed.

(** X8: for a [channel_id] of the form [type:id], the start and the
    message route query the members of the channel named [id], with the
    channel type of the request, while the stop route queries the channel
    named by the whole string, always with type [messaging]: the stop
    route takes the bare id only. *)
Theorem stop_does_not_strip_the_prefix (t i : string)
    (channel_type platform : option string) (s : server) :
  has_colon t = false -> has_colon i = false ->
  let b := {| channel_id := Some (t +:+ ":" +:+ i);
              channel_type := channel_type;
              platform := platform |} in
  head (trace (fst (post_start_ai_agent b s)))
  = Some (queryMembers {| ctype := default "messaging" channel_type; cid := i |})
  /\ head (trace (fst (post_new_ai_message b s)))
     = Some (queryMembers {| ctype := default "messaging" channel_type; cid := i |})
  /\ head (trace (fst (post_stop_ai_agent b s)))
     = Some (queryMembers {| ctype := "messaging"; cid := t +:+ ":" +:+ i |}).
Proof.
  intros Ht Hi b. subst b.
  unfold post_start_ai_agent, post_new_ai_message, post_stop_ai_agent.
  cbn [Server.channel_id Server.channel_type Server.platform].
  rewrite with_colon_not_empty.
  rewrite (updated_type_id t i Ht Hi).
  repeat split.
Qed.

(** Witness for X8. *)
Lemma stop_does_not_strip_the_prefix_witness :
  head (trace (fst (post_stop_ai_agent c1 boot)))
  = Some (queryMembers {| ctype := "messaging"; cid := "messaging:c1" |}).
Proof.
  exact (proj2 (proj2 (stop_does_not_strip_the_prefix "messaging" "c1"
                         None None boot eq_refl eq_refl))).
Defined.

(** ** What a segment adds to the trace *)

(** Split on every test a segment makes, the scan of the sweep included. *)
Ltac all_cases :=
  unfold sweep_from, agent_not_found, call_getAIAgentInfo, missing_fields,
    succeed_start, fail_start, warn_if_absent, cache_has, pending_has,
    cache_set, cache_delete, pending_add, pending_delete, emit, mute;
  simpl;
  repeat match goal with
         | |- context [find_agent_id ?m] => destruct (find_agent_id m); simpl
         | |- context [Map_get ?m ?k] => destruct (Map_get m k); simpl
         | |- context [agentProfile ?a] => destruct (agentProfile a); simpl
         | |- context [sweep_scan ?n ?l ?i] =>
             destruct (sweep_scan n l i) as [[[? ?] ?]|]; simpl
         | |- context [match ?c with [] => _ | _ :: _ => _ end] =>
             destruct c as [|[?|] ?]; simpl
         | |- context [if ?b then _ else _] => destruct b eqn:?; simpl
         end.

(** A segment does not read the trace: it puts what it emits in front. *)
Lemma resume_emits p v s :
  trace (fst (resume p v s)) = emitted p v s ++ trace s
  /\ aiAgentCache (fst (resume p v s)) = aiAgentCache (fst (resume p v (mute s)))
  /\ pendingAiAgents (fst (resume p v s))
     = pendingAiAgents (fst (resume p v (mute s)))
  /\ snd (resume p v s) = snd (resume p v (mute s)).
Proof.
  unfold emitted.
  destruct p; destruct v; simpl; try (destruct error; simpl);
    try (destruct agentInfo; simpl); try (destruct data; simpl);
    all_cases; repeat split.
Qed.



(** X10: every request is answered once.  The segment that ends a request
    emits exactly one response, or lets one rejection leave the handler
    where the await has no [try] around it; a segment that does not end
    the request emits none; this holds for the first segment of each route
    as well, and a request that has ended emits nothing more. *)
Theorem one_answer_per_request (p : proc) (v : settled) (s : server) (b : body) :
  (is_request p = true ->
   answers (emitted p v s)
   = if is_finished (snd (resume p v s)) then 1 else 0)
  /\ (answers (trace (fst (post_start_ai_agent b (mute s))))
      = if is_finished (snd (post_start_ai_agent b s)) then 1 else 0)
  /\ (answers (trace (fst (post_stop_ai_agent b (mute s))))
      = if is_finished (snd (post_stop_ai_agent b s)) then 1 else 0)
  /\ (answers (trace (fst (post_new_ai_message b (mute s))))
      = if is_finished (snd (post_new_ai_message b s)) then 1 else 0)
  /\ resume finished v s = (s, finished).
Proof.
  split; [|split; [|split; [|split]]].
  - unfold emitted, answers.
    destruct p; try discriminate; intros _;
      destruct v; simpl; try (destruct error; simpl);
      try (destruct data; simpl); all_cases; reflexivity.
  - unfold post_start_ai_agent, answers.
    destruct (channel_id b); all_cases; reflexivity.
  - unfold post_stop_ai_agent, answers.
    destruct (channel_id b); all_cases; reflexivity.
  - unfold post_new_ai_message, answers.
    destruct (channel_id b); all_cases; reflexivity.
  - reflexivity.
Qed.

(** Witness for X10: the lookup settles for a request whose agent is
    already registered; the request ends with one response. *)
Lemma one_answer_per_request_witness :
  answers (emitted (start_info "anthropic" "messaging" "c1" "A1")
             (with_row (Some luna) None)
             (cache_set "A1" agent1 boot)) = 1.
Proof.
  exact (proj1 (one_answer_per_request
                  (start_info "anthropic" "messaging" "c1" "A1")
                  (with_row (Some luna) None)
                  (cache_set "A1" agent1 boot) c1) eq_refl).
Defined.

(** ** The registry *)

(** X11: an agent that is registered stays registered, under the same
    identity and as the same instance, through every segment of the start
    and message routes and through the first segments of all routes and
    of the sweep: a start request never replaces an instance, and only
    the segment that follows a resolved disposal, of the stop route or of
    the sweep, takes one out. *)
Theorem registered_agent_is_kept (p : proc) (v : settled) (s : server)
    (k : string) (agent : AIAgent) (b : body) (now : Z) :
  (deletes p = false ->
   Map_get (aiAgentCache s) k = Some agent ->
   Map_get (aiAgentCache (fst (resume p v s))) k = Some agent)
  /\ (forall e, aiAgentCache (fst (resume p (rejected e) s)) = aiAgentCache s)
  /\ aiAgentCache (fst (post_start_ai_agent b s)) = aiAgentCache s
  /\ aiAgentCache (fst (post_stop_ai_agent b s)) = aiAgentCache s
  /\ aiAgentCache (fst (post_new_ai_message b s)) = aiAgentCache s
  /\ aiAgentCache (fst (sweep_from now 0 s)) = aiAgentCache s.
Proof.
  split; [|split; [|repeat split]].
  - intros Hd. destruct p; try discriminate Hd; clear Hd;
      destruct v; simpl; try (destruct error; simpl);
      try (destruct data; simpl);
      unfold sweep_from, agent_not_found, call_getAIAgentInfo, succeed_start,
        fail_start, warn_if_absent, cache_has, pending_has, cache_set,
        pending_add, pending_delete, emit; simpl;
      repeat match goal with
             | |- context [find_agent_id ?m] => destruct (find_agent_id m); simpl
             | |- context [match Map_get ?m ?x with _ => _ end] =>
                 destruct (Map_get m x) eqn:?; simpl
             | |- context [agentProfile ?a] => destruct (agentProfile a); simpl
             | |- context [match ?c with [] => _ | _ :: _ => _ end] =>
                 destruct c as [|[?|] ?]; simpl
             | |- context [if ?b then _ else _] => destruct b eqn:?; simpl
             end; auto.
    (* line 118: the identity was not in the cache *)
    all: intros Hk; rewrite Map_get_set;
      destruct (String.eqb_spec agent_id k) as [->|]; [|exact Hk];
      unfold Map_has in *; rewrite Hk in *; discriminate.
  - intros e. destruct p; simpl; try (destruct agentInfo); reflexivity.
  - unfold post_start_ai_agent. destruct (channel_id b); all_cases; reflexivity.
  - unfold post_stop_ai_agent. destruct (channel_id b); all_cases; reflexivity.
  - unfold post_new_ai_message. destruct (channel_id b); all_cases; reflexivity.
  - all_cases; reflexivity.
Qed.

(** Witness for X11: a second creation for [A1] ends while [agent1] is
    registered; [agent1] stays. *)
Lemma registered_agent_is_kept_witness :
  Map_get
    (aiAgentCache (fst (resume (start_init "A1" agent2) resolved
                          (cache_set "A1" agent1 boot)))) "A1"
  = Some agent1.
Proof.
  exact (proj1 (registered_agent_is_kept (start_init "A1" agent2) resolved
                  (cache_set "A1" agent1 boot) "A1" agent1 c1 0)
           eq_refl eq_refl).
Defined.

(** ** Creation *)

(** X12: a profile lookup that fails does not stop the creation.  When the
    identity is neither registered nor pending, the start route goes on to
    invoke the factory with what [getAIAgentInfo] returned: the row when the
    query reported no error, null when it reported one, and the warning
    about default values is logged exactly in the null case. *)
Theorem factory_gets_the_lookup_result (platform channel_type updated
    agent_id : string) (data : option profile) (error : option string)
    (s : server) :
  cache_has agent_id s = false ->
  pending_has agent_id s = false ->
  let r1 := resume (start_info platform channel_type updated agent_id)
              (with_row data error) s in
  let r2 := resume (snd r1) resolved (fst r1) in
  head (trace (fst r2))
  = Some (createAgent agent_id platform channel_type updated
            (lookup_result data error))
  /\ snd r2 = start_create agent_id
  /\ (In (console_warn ("Failed to fetch agent info for " +:+ agent_id
                        +:+ ", using default values"))
         (emitted (start_info platform channel_type updated agent_id)
            (with_row data error) s)
      <-> lookup_result data error = None).
Proof.
  intros Hc Hp r1 r2. subst r1 r2. unfold emitted.
  unfold cache_has, pending_has in *.
  destruct error as [e|]; [|destruct data as [row|]]; simpl;
    unfold warn_if_absent, cache_has, pending_has, emit, mute; simpl;
    rewrite Hc, Hp; simpl; (split; [reflexivity|]); (split; [reflexivity|]);
    split; intros H; auto; try discriminate H;
    simpl in H; intuition discriminate.
Qed.

(** Witness for X12: the lookup reports an error and the factory is
    invoked with null. *)
Lemma factory_gets_the_lookup_result_witness :
  head (trace (fst (resume
                      (snd (resume (start_info "anthropic" "messaging" "c1" "A1")
                              (with_row (Some luna) (Some "timeout")) boot))
                      resolved
                      (fst (resume (start_info "anthropic" "messaging" "c1" "A1")
                              (with_row (Some luna) (Some "timeout")) boot)))))
  = Some (createAgent "A1" "anthropic" "messaging" "c1" None).
Proof.
  exact (proj1 (factory_gets_the_lookup_result "anthropic" "messaging" "c1"
                  "A1" (Some luna) (Some "timeout") boot eq_refl eq_refl)).
Defined.

(** X13: when an awaited call of a creation is rejected, the request is
    answered with status 500 and the message of the rejection as the reason,
    the cache is left as it was and the identity is not pending; so a later
    start request for an identity that is not registered passes the test of
    line 97 and creates again. *)
Theorem failed_creation_can_be_retried (p : proc) (e : string) (s : server)
    (agent_id : string) :
  creating p = Some agent_id ->
  let s' := fst (resume p (rejected e) s) in
  aiAgentCache s' = aiAgentCache s
  /\ head (trace s')
     = Some (respond 500 (error_json "Failed to start AI Agent" (Some e)))
  /\ pending_has agent_id s' = false
  /\ (cache_has agent_id s = false ->
      forall platform channel_type updated data error,
        snd (resume (start_info platform channel_type updated agent_id)
               (with_row data error) s')
        = start_watch platform channel_type updated agent_id
            (lookup_result data error)).
Proof.
  intros Hp s'. subst s'.
  assert (Hgone : forall X : gset string,
            bool_decide (agent_id ∈ X ∖ {[agent_id]}) = false).
  { intros X. apply bool_decide_eq_false.
    rewrite elem_of_difference, elem_of_singleton. tauto. }
  destruct p; simplify_eq/=; unfold pending_has; simpl;
    (split; [reflexivity|]); (split; [reflexivity|]);
    (split; [apply Hgone|]);
    intros Hfree pf ct cu data error;
    unfold cache_has in Hfree;
    (destruct error as [err|]; [|destruct data]); simpl;
    unfold warn_if_absent, cache_has, pending_has, fail_start, emit,
      pending_delete; simpl;
    rewrite Hfree, Hgone; reflexivity.
Qed.

(** Witness for X13: [init] is rejected. *)
Lemma failed_creation_can_be_retried_witness :
  head (trace (fst (resume (start_init "A1" agent1) (rejected "bad key")
                      (pending_add "A1" boot))))
  = Some (respond 500 (error_json "Failed to start AI Agent" (Some "bad key"))).
Proof.
  exact (proj1 (proj2 (failed_creation_can_be_retried
                         (start_init "A1" agent1) "bad key"
                         (pending_add "A1" boot) "A1" eq_refl))).
Defined.

(** ** The salutation of the system prompt *)

(** X14: the system prompt addresses the agent as a girlfriend exactly when
    the gender of the profile is missing or falsy, or is the string
    [female]; every other value, [Female] and [woman] included, gives the
    boyfriend form.  The name of the profile follows. *)
Theorem salutation_follows_gender (p : profile) :
  exists rest,
    agentProfile (Some p)
    = Normal ((if negb (truthy (gender p)) || strict_eq_string (gender p) "female"
               then "You are a virtual girlfried named "
               else "You are a virtual boyfriend named ")
              +:+ ToString (name p) +:+ "." +:+ rest).
Proof.
  unfold agentProfile, or_else.
  destruct (truthy (gender p)) eqn:Htruthy; simpl;
    [destruct (strict_eq_string (gender p) "female")|];
    eexists; f_equal; rewrite !string_app_assoc; reflexivity.
Qed.

(** ** The registry holds an agent id once *)

Lemma Map_has_live_keys {V} (m : MapData V) (k : string) :
  Map_has m k = true <-> k ∈ live_keys m.
Proof.
  unfold Map_has. induction m as [|[[k0 v0]|] m IH]; simpl.
  - rewrite elem_of_nil. split; [discriminate | tauto].
  - rewrite elem_of_cons.
    destruct (String.eqb_spec k0 k) as [->|Hne]; [tauto|].
    rewrite IH. split; [tauto | intros [?|?]; [congruence | assumption]].
  - exact IH.
Qed.

Lemma live_keys_set {V} (m : MapData V) (k : string) (v : V) :
  live_keys (Map_set m k v)
  = if Map_has m k then live_keys m else live_keys m ++ [k].
Proof.
  unfold Map_has. induction m as [|[[k0 v0]|] m IH]; simpl.
  - reflexivity.
  - destruct (String.eqb_spec k0 k) as [->|Hne]; simpl; [reflexivity|].
    rewrite IH. destruct (Map_get m k); reflexivity.
  - exact IH.
Qed.

Lemma live_keys_delete {V} (m : MapData V) (k x : string) :
  x ∈ live_keys (Map_delete m k) -> x ∈ live_keys m.
Proof.
  induction m as [|[[k0 v0]|] m IH]; simpl; auto.
  destruct (String.eqb_spec k0 k); simpl; rewrite ?elem_of_cons; tauto.
Qed.

Lemma Map_wf_set {V} (m : MapData V) (k : string) (v : V) :
  Map_wf m -> Map_wf (Map_set m k v).
Proof.
  unfold Map_wf. intros Hwf. rewrite live_keys_set.
  destruct (Map_has m k) eqn:Hk; [exact Hwf|].
  apply NoDup_app. split; [exact Hwf|]. split; [|apply NoDup_singleton].
  intros x Hx Hin. apply list_elem_of_singleton in Hin. subst x.
  apply Map_has_live_keys in Hx. congruence.
Qed.

Lemma Map_wf_delete {V} (m : MapData V) (k : string) :
  Map_wf m -> Map_wf (Map_delete m k) /\ Map_has (Map_delete m k) k = false.
Proof.
  unfold Map_wf. induction m as [|[[k0 v0]|] m IH]; simpl; intros Hwf.
  - split; [exact Hwf | reflexivity].
  - apply NoDup_cons in Hwf as [Hnot Hwf].
    destruct (String.eqb_spec k0 k) as [->|Hne]; simpl.
    + split; [exact Hwf|].
      destruct (Map_has m k) eqn:Hk; [|exact Hk].
      apply Map_has_live_keys in Hk. contradiction.
    + destruct (IH Hwf) as [IH1 IH2]. split.
      * apply NoDup_cons. split; [|exact IH1].
        intros Hin. apply Hnot. now apply live_keys_delete in Hin.
      * unfold Map_has in *. simpl.
        destruct (String.eqb_spec k0 k); [contradiction | exact IH2].
  - apply IH, Hwf.
Qed.

Lemma cache_wf_resume p v s : cache_wf s -> cache_wf (fst (resume p v s)).
Proof.
  unfold cache_wf. intros Hwf.
  destruct p; destruct v; simpl; try (destruct error; simpl);
    try (destruct data; simpl); all_cases;
    auto using Map_wf_set; try (now apply Map_wf_delete).
Qed.

Lemma cache_wf_step sys a : cache_wf (state sys) -> cache_wf (state (step sys a)).
Proof.
  intros H. destruct a as [b|b|b|now|i v]; simpl.
  - unfold post_start_ai_agent. destruct (channel_id b); all_cases; exact H.
  - unfold post_stop_ai_agent. destruct (channel_id b); all_cases; exact H.
  - unfold post_new_ai_message. destruct (channel_id b); all_cases; exact H.
  - unfold cache_wf in *. all_cases; exact H.
  - destruct (procs sys !! i); simpl; [now apply cache_wf_resume | exact H].
Qed.

Lemma cache_wf_exec actions sys :
  cache_wf (state sys) -> cache_wf (state (exec actions sys)).
Proof.
  revert sys; induction actions as [|a actions IH]; intros sys H; simpl; auto.
  apply IH. now apply cache_wf_step.
Qed.

Lemma cache_wf_boot : cache_wf boot.
Proof. apply NoDup_nil. exact I. Qed.

(** ** Stopping an agent *)

(** X15: in every run of the server, a stop request that is awaiting the
    disposal of its agent ends as follows.  When the disposal resolves the
    agent id is no longer registered, the answer is 200 and the request is
    over; when the disposal is rejected the registry is left as it was, the
    agent stays registered, and the answer is 500 with the reason.  A stop
    request for a channel whose agent is not registered disposes nothing
    and answers 200 all the same. *)
Theorem stop_unregisters (actions : list action) (i : nat) (agent_id : string) :
  procs (exec actions power_on) !! i = Some (stop_dispose agent_id) ->
  (let sys := step (exec actions power_on) (settle i resolved) in
   cache_has agent_id (state sys) = false
   /\ head (trace (state sys)) = Some (respond 200 (message_json "AI Agent stopped"))
   /\ procs sys !! i = Some finished)
  /\ (forall e,
        let sys := step (exec actions power_on) (settle i (rejected e)) in
        aiAgentCache (state sys) = aiAgentCache (state (exec actions power_on))
        /\ head (trace (state sys))
           = Some (respond 500 (error_json "Failed to stop AI Agent" (Some e)))
        /\ procs sys !! i = Some finished)
  /\ (forall members s,
        find_agent_id members = Some agent_id ->
        Map_get (aiAgentCache s) agent_id = None ->
        resume stop_members (with_members members) s
        = (emit (respond 200 (message_json "AI Agent stopped")) s, finished)).
Proof.
  intros Hp.
  assert (Hi : i < length (procs (exec actions power_on)))
    by (eapply lookup_lt_Some; eauto).
  assert (Hwf : cache_wf (state (exec actions power_on)))
    by (apply cache_wf_exec, cache_wf_boot).
  split; [|split].
  - cbv zeta. unfold step. rewrite Hp. cbn [resume fst snd state procs].
    rewrite list_lookup_insert_eq by exact Hi.
    split; [|split; reflexivity].
    unfold cache_has. simpl. now apply Map_wf_delete.
  - intros e. cbv zeta. unfold step. rewrite Hp. cbn [resume fst snd state procs].
    rewrite list_lookup_insert_eq by exact Hi. repeat split.
  - intros members s Hfind Hget. simpl. now rewrite Hfind, Hget.
Qed.

Lemma stop_unregisters_witness :
  let actions :=
    start_to_end 0 c1 members_c1 agent1
    ++ [POST_stop_ai_agent
          {| channel_id := Some "c1"; channel_type := None; platform := None |};
        settle 1 (with_members members_c1)] in
  cache_has "A1" (state (exec actions power_on)) = true
  /\ cache_has "A1"
       (state (step (exec actions power_on) (settle 1 resolved))) = false.
Proof.
  split; [reflexivity|].
  exact (proj1 (proj1 (stop_unregisters
                         (start_to_end 0 c1 members_c1 agent1
                          ++ [POST_stop_ai_agent
                                {| channel_id := Some "c1"; channel_type := None;
                                   platform := None |};
                              settle 1 (with_members members_c1)])
                         1 "A1" eq_refl))).
Defined.

(** ** The sweep *)

Lemma expired_spec (now : Z) (agent : AIAgent) :
  expired now agent = true <-> (now - getLastInteraction agent > 28800000)%Z.
Proof.
  unfold expired, inactivityThreshold.
  change (480 * 60 * 1000)%Z with 28800000%Z.
  rewrite Z.gtb_ltb, Z.ltb_lt. lia.
Qed.

Lemma sweep_scan_none now rest i :
  sweep_scan now rest i = None ->
  purge now rest = rest /\ idle_agents now rest = [].
Proof.
  revert i; induction rest as [|[[k a]|] rest IH]; intros i; simpl.
  - auto.
  - destruct (expired now a); [discriminate|].
    intros H. destruct (IH _ H) as [-> ->]. auto.
  - intros H. destruct (IH _ H) as [-> ->]. auto.
Qed.

Lemma sweep_scan_some now rest i next u a :
  sweep_scan now rest i = Some (next, u, a) ->
  exists pre post,
    rest = pre ++ Some (u, a) :: post
    /\ purge now pre = pre /\ idle_agents now pre = []
    /\ expired now a = true /\ next = i + length pre + 1.
Proof.
  revert i; induction rest as [|[[k0 a0]|] rest IH]; intros i; simpl.
  - discriminate.
  - destruct (expired now a0) eqn:He.
    + intros H. inversion H; subst. exists [], rest. simpl.
      repeat split; auto. lia.
    + intros H. destruct (IH _ H) as (pre & post & -> & Hp & Hi & Hx & ->).
      exists (Some (k0, a0) :: pre), post. simpl. rewrite He, Hp, Hi.
      repeat split; auto. lia.
  - intros H. destruct (IH _ H) as (pre & post & -> & Hp & Hi & Hx & ->).
    exists (None :: pre), post. simpl. rewrite Hp, Hi.
    repeat split; auto. lia.
Qed.

Lemma purge_app now m1 m2 : purge now (m1 ++ m2) = purge now m1 ++ purge now m2.
Proof.
  induction m1 as [|[[k a]|] m1 IH]; simpl; [reflexivity| |]; now rewrite IH.
Qed.

Lemma purge_length now m : length (purge now m) = length m.
Proof. induction m as [|[[k a]|] m IH]; simpl; auto. Qed.

Lemma idle_agents_app now m1 m2 :
  idle_agents now (m1 ++ m2) = idle_agents now m1 ++ idle_agents now m2.
Proof.
  induction m1 as [|[[k a]|] m1 IH]; simpl; [reflexivity| |exact IH].
  destruct (expired now a); simpl; now rewrite IH.
Qed.

Lemma live_keys_app {V} (m1 m2 : MapData V) :
  live_keys (m1 ++ m2) = live_keys m1 ++ live_keys m2.
Proof.
  induction m1 as [|[[k a]|] m1 IH]; simpl; [reflexivity| |exact IH].
  now rewrite IH.
Qed.

Lemma live_keys_purge now m k : k ∈ live_keys (purge now m) -> k ∈ live_keys m.
Proof.
  induction m as [|[[k0 a]|] m IH]; simpl; auto.
  destruct (expired now a); simpl; rewrite ?elem_of_cons; tauto.
Qed.

Lemma Map_delete_at {V} (front : MapData V) u a post :
  u ∉ live_keys front ->
  Map_delete (front ++ Some (u, a) :: post) u = front ++ None :: post.
Proof.
  induction front as [|[[k0 v0]|] front IH]; simpl; intros Hnot.
  - now rewrite String.eqb_refl.
  - apply not_elem_of_cons in Hnot as [Hne Hnot].
    destruct (String.eqb_spec k0 u); [congruence|]. now rewrite IH.
  - now rewrite IH.
Qed.

Lemma sweep_all_finished fuel s : sweep_all fuel (s, finished) = (s, finished).
Proof. destruct fuel; reflexivity. Qed.

Lemma sweep_all_spec now fuel :
  forall done rest s,
    aiAgentCache s = purge now done ++ rest ->
    NoDup (live_keys (done ++ rest)) ->
    length rest <= fuel ->
    let r := sweep_all fuel (sweep_from now (length done) s) in
    snd r = finished
    /\ aiAgentCache (fst r) = purge now (done ++ rest)
    /\ pendingAiAgents (fst r) = pendingAiAgents s
    /\ disposed (trace (fst r)) = disposed (trace s) ++ idle_agents now rest.
Proof.
  induction fuel as [|fuel IH]; intros done rest s Hcache Hwf Hlen r; subst r;
    unfold sweep_from; rewrite Hcache;
    rewrite drop_app_length' by (now rewrite purge_length);
    destruct (sweep_scan now rest (length done)) as [[[next u] a]|] eqn:Hscan.
  - apply sweep_scan_some in Hscan as (pre & post & -> & _).
    rewrite length_app in Hlen. simpl in Hlen. lia.
  - apply sweep_scan_none in Hscan as [Hp Hi]. simpl.
    rewrite Hcache, purge_app, Hp, Hi, app_nil_r. auto.
  - apply sweep_scan_some in Hscan as (pre & post & -> & Hp & Hi & Hx & ->).
    cbn [sweep_all snd fst resume].
    set (s1 := cache_delete u _).
    assert (Hu : u ∉ live_keys (purge now done ++ pre)).
    { rewrite live_keys_app, !live_keys_app in Hwf. simpl in Hwf.
      intros Hin. rewrite live_keys_app in Hin.
      apply elem_of_app in Hin.
      apply NoDup_app in Hwf as (_ & Hdisj & Hrest).
      destruct Hin as [Hin|Hin].
      - apply live_keys_purge in Hin. apply (Hdisj u Hin).
        rewrite elem_of_app, elem_of_cons. auto.
      - apply NoDup_app in Hrest as (_ & Hdisj' & _).
        apply (Hdisj' u Hin). rewrite elem_of_cons. auto. }
    assert (Hcache1 : aiAgentCache s1
                      = purge now (done ++ pre ++ [Some (u, a)]) ++ post).
    { subst s1. simpl. rewrite Hcache.
      rewrite (app_assoc _ pre), Map_delete_at by exact Hu.
      rewrite !purge_app, Hp. simpl. rewrite Hx.
      now rewrite <- !app_assoc. }
    replace (length done + length pre + 1)
      with (length (done ++ pre ++ [Some (u, a)]))
      by (rewrite !length_app; simpl; lia).
    destruct (IH (done ++ pre ++ [Some (u, a)]) post s1 Hcache1) as (H1 & H2 & H3 & H4).
    { now rewrite <- !app_assoc. }
    { rewrite length_app in Hlen. simpl in Hlen. lia. }
    split; [exact H1|]. split; [|split].
    + rewrite H2. now rewrite <- !app_assoc.
    + rewrite H3. reflexivity.
    + rewrite H4. subst s1. simpl.
      rewrite idle_agents_app, Hi. simpl. rewrite Hx.
      now rewrite <- app_assoc.
  - apply sweep_scan_none in Hscan as [Hp Hi].
    rewrite sweep_all_finished. simpl.
    rewrite Hcache, purge_app, Hp, Hi, app_nil_r. auto.
Qed.

Lemma Map_get_purge now (m : MapData AIAgent) k :
  Map_wf m ->
  Map_get (purge now m) k
  = match Map_get m k with
    | Some a => if expired now a then None else Some a
    | None => None
    end.
Proof.
  unfold Map_wf. induction m as [|[[k0 a0]|] m IH]; simpl; intros Hwf.
  - reflexivity.
  - apply NoDup_cons in Hwf as [Hnot Hwf].
    destruct (expired now a0) eqn:He; simpl.
    + destruct (String.eqb_spec k0 k) as [->|Hne]; [|now apply IH].
      rewrite He.
      destruct (Map_get (purge now m) k) eqn:Hg; [|reflexivity].
      exfalso. apply Hnot. apply (live_keys_purge now).
      apply Map_has_live_keys. unfold Map_has. now rewrite Hg.
    + destruct (String.eqb_spec k0 k) as [->|Hne]; [now rewrite He | now apply IH].
  - now apply IH.
Qed.

(** X16: a tick of the sweep over a registry that holds every id once,
    with nothing else running and every disposal resolving, ends; it
    removes exactly the agents whose last interaction is more than
    28 800 000 ms (eight hours) before the time of the tick and keeps every
    other agent with its value; it disposes the removed agents, each once,
    in the order of registration; and it leaves the pending set alone.  An
    agent idle for exactly eight hours is kept. *)
Theorem sweep_removes_exactly_the_idle (now : Z) (s : server) :
  Map_wf (aiAgentCache s) ->
  let r := sweep_all (length (aiAgentCache s)) (sweep_from now 0 s) in
  snd r = finished
  /\ aiAgentCache (fst r) = purge now (aiAgentCache s)
  /\ (forall k,
        Map_get (aiAgentCache (fst r)) k
        = match Map_get (aiAgentCache s) k with
          | Some agent => if expired now agent then None else Some agent
          | None => None
          end)
  /\ disposed (trace (fst r))
     = disposed (trace s) ++ idle_agents now (aiAgentCache s)
  /\ pendingAiAgents (fst r) = pendingAiAgents s
  /\ (forall agent,
        expired now agent = true
        <-> (now - getLastInteraction agent > 28800000)%Z).
Proof.
  intros Hwf r. subst r.
  destruct (sweep_all_spec now (length (aiAgentCache s)) [] (aiAgentCache s) s)
    as (H1 & H2 & H3 & H4); auto.
  simpl in H2, H4.
  split; [exact H1|]. split; [exact H2|].
  split; [intros k; rewrite H2; now apply Map_get_purge|].
  split; [exact H4|]. split; [exact H3|].
  intros agent. apply expired_spec.
Qed.

Lemma sweep_removes_exactly_the_idle_witness :
  let s := {| aiAgentCache :=
                [Some ("A1", {| agent_ref := 1; getLastInteraction := 0 |});
                 Some ("A2", {| agent_ref := 2; getLastInteraction := 1 |})];
              pendingAiAgents := ∅;
              trace := [] |} in
  let r := sweep_all 2 (sweep_from 28800001 0 s) in
  Map_get (aiAgentCache (fst r)) "A1" = None
  /\ Map_get (aiAgentCache (fst r)) "A2"
     = Some {| agent_ref := 2; getLastInteraction := 1 |}
  /\ disposed (trace (fst r)) = [{| agent_ref := 1; getLastInteraction := 0 |}].
Proof.
  cbv zeta.
  pose proof (sweep_removes_exactly_the_idle 28800001
                {| aiAgentCache :=
                     [Some ("A1", {| agent_ref := 1; getLastInteraction := 0 |});
                      Some ("A2", {| agent_ref := 2; getLastInteraction := 1 |})];
                   pendingAiAgents := ∅;
                   trace := [] |}) as H.
  destruct H as (_ & _ & Hget & Hdisposed & _).
  - unfold Map_wf. simpl. apply NoDup_cons. split.
    + rewrite list_elem_of_singleton. discriminate.
    + apply NoDup_singleton.
  - split; [exact (Hget "A1")|]. split; [exact (Hget "A2") | exact Hdisposed].
Defined.

(** X17: one step of the sweep.  From any index of the registry, the
    callback either stops at an agent that is registered at or after that
    index and idle for more than eight hours, logs the disposal, starts
    disposing that agent and remembers the position after it; or it ends
    without any effect, and then no agent from that index on is idle.  It
    awaits nothing but a disposal. *)
Theorem sweep_disposes_only_idle_registered (now : Z) (index : nat) (s : server) :
  (forall s' now' next userId,
     sweep_from now index s = (s', sweep_dispose now' next userId) ->
     exists agent,
       Some (userId, agent) ∈ drop index (aiAgentCache s)
       /\ (now - getLastInteraction agent > 28800000)%Z
       /\ s' = emit (dispose agent)
                 (emit (console_log ("Disposing AI Agent due to inactivity: "
                                     +:+ userId)) s)
       /\ now' = now /\ index < next <= length (aiAgentCache s))
  /\ (snd (sweep_from now index s) = finished ->
      fst (sweep_from now index s) = s
      /\ idle_agents now (drop index (aiAgentCache s)) = [])
  /\ (is_finished (snd (sweep_from now index s)) = false ->
      exists next userId, snd (sweep_from now index s) = sweep_dispose now next userId).
Proof.
  unfold sweep_from.
  destruct (sweep_scan now (drop index (aiAgentCache s)) index)
    as [[[next u] a]|] eqn:Hscan.
  - apply sweep_scan_some in Hscan as (pre & post & Hd & Hp & Hi & Hx & Hn).
    split; [|split].
    + intros s' now' next' userId Heq. inversion Heq; subst. exists a.
      split. { rewrite Hd, elem_of_app, elem_of_cons. auto. }
      split. { now apply expired_spec. }
      split; [reflexivity|]. split; [reflexivity|].
      assert (Hl : length (drop index (aiAgentCache s))
                   = length pre + S (length post))
        by (rewrite Hd, length_app; reflexivity).
      rewrite length_drop in Hl. lia.
    + discriminate.
    + intros _. eauto.
  - apply sweep_scan_none in Hscan as [Hp Hi].
    split; [|split].
    + discriminate.
    + auto.
    + discriminate.
Qed.

Lemma sweep_disposes_only_idle_registered_witness :
  exists agent,
    Some ("A2", agent)
      ∈ drop 0 [Some ("A1", {| agent_ref := 1; getLastInteraction := 5 |});
                Some ("A2", {| agent_ref := 2; getLastInteraction := 0 |})]
    /\ (28800001 - getLastInteraction agent > 28800000)%Z.
Proof.
  destruct (proj1 (sweep_disposes_only_idle_registered 28800001 0
                     {| aiAgentCache :=
                          [Some ("A1", {| agent_ref := 1; getLastInteraction := 5 |});
                           Some ("A2", {| agent_ref := 2; getLastInteraction := 0 |})];
                        pendingAiAgents := ∅;
                        trace := [] |})
                  _ _ _ _ eq_refl) as (agent & Hin & Hidle & _).
  exists agent. split; [exact Hin | exact Hidle].
Defined.

(** ** A start request running alone *)

Lemma post_start_nonempty cid ct pf s :
  String.eqb cid "" = false ->
  post_start_ai_agent
    {| channel_id := Some cid; channel_type := ct; platform := pf |} s
  = (emit (queryMembers {| ctype := default "messaging" ct;
                           cid := channel_id_updated cid |})
       (emit (console_log ("DEBUG: Starting AI Agent for channel_id:  " +:+ cid)) s),
     start_members (default "anthropic" pf) (default "messaging" ct)
       (channel_id_updated cid)).
Proof.
  intros Hcid. unfold post_start_ai_agent.
  cbn [channel_id channel_type platform]. now rewrite Hcid.
Qed.

Lemma resume_members_found pf ct cu members agent_id s :
  find_agent_id members = Some agent_id ->
  resume (start_members pf ct cu) (with_members members) s
  = (call_getAIAgentInfo agent_id s, start_info pf ct cu agent_id).
Proof. intros Hfind. cbn [resume]. now rewrite Hfind. Qed.

Lemma resume_info_free pf ct cu agent_id data error s :
  cache_has agent_id s = false ->
  pending_has agent_id s = false ->
  resume (start_info pf ct cu agent_id) (with_row data error) s
  = (emit (watch {| ctype := ct; cid := cu |})
       (pending_add agent_id
          (warn_if_absent agent_id (lookup_result data error)
             (snd (getAIAgentInfo data error s)))),
     start_watch pf ct cu agent_id (lookup_result data error)).
Proof.
  intros Hc Hp. unfold cache_has, pending_has in *.
  destruct error as [e|]; [|destruct data]; simpl;
    unfold warn_if_absent, cache_has, pending_has, emit; simpl;
    rewrite Hc, Hp; reflexivity.
Qed.

Lemma resume_init_free agent_id agent s :
  cache_has agent_id s = false ->
  resume (start_init agent_id agent) resolved s
  = (succeed_start agent_id (cache_set agent_id agent s), finished).
Proof. intros Hc. cbn [resume]. now rewrite Hc. Qed.

(** X18: a start request for a channel with an agent member that is
    neither registered nor pending, running alone with every await
    resolving, ends with the agent of the factory registered under the id
    of the agent member, after the entries that were there; the pending
    set is what it was before the request; the answer is 200; the factory
    was invoked once, and nothing was disposed.  This holds whatever the
    profile lookup returns, a missing row and an error included. *)
Theorem start_registers_the_agent (cid : string) (ct pf : option string)
    (members : list member) (agent_id : string) (data : option profile)
    (error : option string) (agent : AIAgent) (s : server) :
  String.eqb cid "" = false ->
  find_agent_id members = Some agent_id ->
  cache_has agent_id s = false ->
  pending_has agent_id s = false ->
  let r := settle_all [with_members members; with_row data error; resolved;
                       with_agent agent; resolved]
             (post_start_ai_agent
                {| channel_id := Some cid; channel_type := ct; platform := pf |} s) in
  snd r = finished
  /\ aiAgentCache (fst r) = aiAgentCache s ++ [Some (agent_id, agent)]
  /\ Map_get (aiAgentCache (fst r)) agent_id = Some agent
  /\ pendingAiAgents (fst r) = pendingAiAgents s
  /\ head (trace (fst r)) = Some (respond 200 (message_json "AI Agent started"))
  /\ factory_invocations agent_id (fst r) = S (factory_invocations agent_id s)
  /\ disposed (trace (fst r)) = disposed (trace s).
Proof.
  intros Hcid Hfind Hc Hp r. subst r.
  assert (Hcache : forall e d x, aiAgentCache (snd (getAIAgentInfo d e x))
                                 = aiAgentCache x)
    by (intros [?|] ? ?; reflexivity).
  assert (Hwarn : forall a x, aiAgentCache (warn_if_absent agent_id a x)
                              = aiAgentCache x)
    by (intros [?|] ?; reflexivity).
  assert (Hpend : forall e d x, pendingAiAgents (snd (getAIAgentInfo d e x))
                                = pendingAiAgents x)
    by (intros [?|] ? ?; reflexivity).
  assert (Hwarnp : forall a x, pendingAiAgents (warn_if_absent agent_id a x)
                               = pendingAiAgents x)
    by (intros [?|] ?; reflexivity).
  rewrite post_start_nonempty by exact Hcid.
  cbn [settle_all fst snd].
  rewrite (resume_members_found _ _ _ members agent_id _ Hfind).
  cbn [settle_all fst snd].
  rewrite resume_info_free by assumption.
  cbn [settle_all fst snd].
  change (resume (start_watch ?a ?b ?c ?d ?e) resolved ?st)
    with (emit (createAgent d a b c e) st, start_create d).
  cbn [settle_all fst snd].
  change (resume (start_create ?d) (with_agent ?a) ?st)
    with (emit (init a) st, start_init d a).
  cbn [settle_all fst snd].
  match goal with
  | |- context [resume (start_init ?i ?a) resolved ?st] =>
      rewrite (resume_init_free i a st)
        by (unfold cache_has; cbn [emit pending_add aiAgentCache];
            rewrite Hwarn, Hcache; exact Hc)
  end.
  cbn [fst snd].
  assert (Hset : Map_set (aiAgentCache s) agent_id agent
                 = aiAgentCache s ++ [Some (agent_id, agent)]).
  { clear -Hc. unfold cache_has, Map_has in Hc.
    induction (aiAgentCache s) as [|[[k0 a0]|] m IH]; simpl in *.
    - reflexivity.
    - destruct (String.eqb k0 agent_id); [discriminate|]. now rewrite IH.
    - now rewrite IH. }
  split; [reflexivity|].
  split. { cbn [succeed_start cache_set pending_delete emit pending_add
                aiAgentCache]. now rewrite Hwarn, Hcache. }
  split. { cbn [succeed_start cache_set pending_delete emit pending_add
                aiAgentCache]. rewrite Hwarn, Hcache, Map_get_set.
           now rewrite String.eqb_refl. }
  split.
  { cbn [succeed_start cache_set pending_delete emit pending_add
         pendingAiAgents]. rewrite Hwarnp, Hpend.
    cbn [call_getAIAgentInfo emit pendingAiAgents].
    apply set_eq. intros x.
    rewrite elem_of_difference, elem_of_union, elem_of_singleton.
    unfold pending_has in Hp. apply bool_decide_eq_false in Hp.
    split; [tauto|]. intros Hx. split; [tauto|]. intros ->. contradiction. }
  split; [reflexivity|].
  unfold factory_invocations.
  destruct error as [e|]; [|destruct data as [row|]]; simpl;
    rewrite String.eqb_refl; split; reflexivity.
Qed.

Lemma start_registers_the_agent_witness :
  let r := settle_all [with_members members_c1; with_row None (Some "PGRST116");
                       resolved; with_agent agent1; resolved]
             (post_start_ai_agent c1 boot) in
  snd r = finished
  /\ Map_get (aiAgentCache (fst r)) "A1" = Some agent1
  /\ pendingAiAgents (fst r) = ∅.
Proof.
  destruct (start_registers_the_agent "messaging:c1" None None members_c1 "A1"
              None (Some "PGRST116") agent1 boot eq_refl eq_refl eq_refl eq_refl)
    as (Hend & _ & Hget & Hpending & _).
  split; [exact Hend|]. split; [exact Hget | exact Hpending].
Defined.

(** ** Pending marks *)

Lemma pending_origin p v s agent_id :
  agent_id ∈ pendingAiAgents (fst (resume p v s)) ->
  agent_id ∈ pendingAiAgents s \/ creating (snd (resume p v s)) = Some agent_id.
Proof.
  destruct p; destruct v; simpl; try (destruct error; simpl);
    try (destruct data; simpl); all_cases;
    rewrite ?elem_of_difference, ?elem_of_union, ?elem_of_singleton;
    intuition (subst; auto).
Qed.

Lemma creating_step p v s agent_id :
  creating p = Some agent_id ->
  creating (snd (resume p v s)) = Some agent_id
  \/ agent_id ∉ pendingAiAgents (fst (resume p v s)).
Proof.
  intros Hp. destruct p; simplify_eq/=; destruct v; simpl; all_cases; auto;
    right; rewrite elem_of_difference, elem_of_singleton; tauto.
Qed.

Lemma first_segments_keep_pending sys a :
  match a with settle _ _ => False | _ => True end ->
  pendingAiAgents (state (step sys a)) = pendingAiAgents (state sys)
  /\ exists p, procs (step sys a) = procs sys ++ [p].
Proof.
  destruct a as [b|b|b|now|i v]; simpl; intros Ha; try contradiction.
  - unfold post_start_ai_agent. destruct (channel_id b); all_cases; eauto.
  - unfold post_stop_ai_agent. destruct (channel_id b); all_cases; eauto.
  - unfold post_new_ai_message. destruct (channel_id b); all_cases; eauto.
  - all_cases; eauto.
Qed.

Lemma marks_step sys a : marks_are_owned sys -> marks_are_owned (step sys a).
Proof.
  intros Hinv agent_id Hin.
  destruct a as [b|b|b|now|i v].
  1-4: match type of Hin with
       | context [step ?sy ?a] =>
           destruct (first_segments_keep_pending sy a I) as [Hpend [p0 Hprocs]]
       end;
       rewrite Hpend in Hin; destruct (Hinv agent_id Hin) as (j & q & Hj & Hq);
       exists j, q; split; [|exact Hq];
       rewrite Hprocs; now apply lookup_app_l_Some.
  simpl in *. destruct (procs sys !! i) as [p|] eqn:Hp; [|now apply Hinv].
  simpl in *.
  assert (Hi : i < length (procs sys)) by (eapply lookup_lt_Some; eauto).
  destruct (pending_origin p v (state sys) agent_id Hin) as [Hold|Hnew].
  - destruct (Hinv agent_id Hold) as (j & q & Hj & Hq).
    destruct (decide (j = i)) as [->|Hne].
    + assert (q = p) by congruence. subst q.
      destruct (creating_step p v (state sys) agent_id Hq) as [Hstill|Hgone];
        [|contradiction].
      exists i, (snd (resume p v (state sys))).
      split; [now apply list_lookup_insert_eq | exact Hstill].
    + exists j, q. split; [|exact Hq].
      rewrite list_lookup_insert_ne by congruence. exact Hj.
  - exists i, (snd (resume p v (state sys))).
    split; [now apply list_lookup_insert_eq | exact Hnew].
Qed.

Lemma marks_exec actions sys :
  marks_are_owned sys -> marks_are_owned (exec actions sys).
Proof.
  revert sys; induction actions as [|a actions IH]; intros sys H; simpl; auto.
  apply IH. now apply marks_step.
Qed.

(** X19: in every run of the server, an id is in the pending set only
    while some start request is between its test of line 97 and its
    [finally]; so when every request and every sweep of the run is over,
    the pending set is empty. *)
Theorem pending_marks_are_transient (actions : list action) :
  (forall agent_id,
     agent_id ∈ pendingAiAgents (state (exec actions power_on)) ->
     exists i p,
       procs (exec actions power_on) !! i = Some p
       /\ creating p = Some agent_id)
  /\ (Forall (fun p => is_finished p = true) (procs (exec actions power_on)) ->
      pendingAiAgents (state (exec actions power_on)) = ∅).
Proof.
  assert (Hinv : marks_are_owned (exec actions power_on)).
  { apply marks_exec. intros k Hk. simpl in Hk.
    now apply not_elem_of_empty in Hk. }
  split; [exact Hinv|].
  intros Hall. apply set_eq. intros k. split; [|intros Hk; now apply not_elem_of_empty in Hk].
  intros Hk. destruct (Hinv k Hk) as (i & p & Hi & Hp).
  rewrite Forall_lookup in Hall. specialize (Hall i p Hi).
  destruct p; discriminate.
Qed.

Lemma pending_marks_are_transient_witness :
  pendingAiAgents
    (state (exec (start_to_end 0 c1 members_c1 agent1
                  ++ [POST_stop_ai_agent c1; settle 1 (with_members members_c1);
                      settle 1 resolved])
              power_on)) = ∅.
Proof.
  apply (proj2 (pending_marks_are_transient
                  (start_to_end 0 c1 members_c1 agent1
                   ++ [POST_stop_ai_agent c1; settle 1 (with_members members_c1);
                       settle 1 resolved]))).
  repeat constructor.
Defined.

(** ** A message request running alone *)

Lemma post_message_nonempty cid ct pf s :
  String.eqb cid "" = false ->
  post_new_ai_message
    {| channel_id := Some cid; channel_type := ct; platform := pf |} s
  = (emit (queryMembers {| ctype := default "messaging" ct;
                           cid := channel_id_updated cid |}) s,
     message_members {| ctype := default "messaging" ct;
                        cid := channel_id_updated cid |}).
Proof.
  intros Hcid. unfold post_new_ai_message.
  cbn [channel_id channel_type platform]. now rewrite Hcid.
Qed.

Lemma resume_message_members ch members agent_id s :
  find_agent_id members = Some agent_id ->
  resume (message_members ch) (with_members members) s
  = (call_getAIAgentInfo agent_id s, message_info ch agent_id).
Proof. intros Hfind. cbn [resume]. now rewrite Hfind. Qed.

Lemma resume_message_info ch agent_id row s :
  resume (message_info ch agent_id) (with_row (Some row) None) s
  = (emit (messages_create (prompt_with "NaN" row))
       (warn_if_absent agent_id (Some row) s),
     message_create ch agent_id).
Proof. cbv [resume getAIAgentInfo]. now rewrite agentProfile_shape. Qed.

Lemma resume_message_text ch agent_id text more s :
  String.eqb text "" = false ->
  resume (message_create ch agent_id) (with_message (text_block text :: more)) s
  = (emit (sendMessage ch text agent_id) s, message_send agent_id).
Proof. intros Ht. cbn [resume]. now rewrite Ht. Qed.

(** X20: a message request for a channel with an agent member whose
    profile is found, running alone, with a model reply whose first block
    is a non-empty text: the request asks for the members, looks the
    profile up, calls the model once with the system prompt of the profile,
    posts the text of the first block, and only that, once, in the channel
    of the request and under the id of the agent member, and answers 200
    with the message of the start route.  The registry is not touched, and
    the id of the agent is taken out of the pending set. *)
Theorem message_posts_first_text_block (cid : string) (ct pf : option string)
    (members : list member) (agent_id : string) (row : profile)
    (text : string) (more : list content_block) (s : server) :
  String.eqb cid "" = false ->
  find_agent_id members = Some agent_id ->
  String.eqb text "" = false ->
  let ch := {| ctype := default "messaging" ct; cid := channel_id_updated cid |} in
  let r := settle_all [with_members members; with_row (Some row) None;
                       with_message (text_block text :: more); resolved]
             (post_new_ai_message
                {| channel_id := Some cid; channel_type := ct; platform := pf |} s) in
  snd r = finished
  /\ trace (fst r)
     = [respond 200 (message_json "AI Agent started");
        sendMessage ch text agent_id;
        messages_create (prompt_with "NaN" row);
        console_log "agentInfo";
        supabase_single agent_id;
        console_log ("Getting AI agent info for: " +:+ agent_id);
        queryMembers ch] ++ trace s
  /\ aiAgentCache (fst r) = aiAgentCache s
  /\ pendingAiAgents (fst r) = pendingAiAgents s ∖ {[agent_id]}.
Proof.
  intros Hcid Hfind Htext ch r. subst ch r.
  rewrite post_message_nonempty by exact Hcid.
  cbn [settle_all fst snd].
  rewrite (resume_message_members _ members agent_id _ Hfind).
  cbn [settle_all fst snd].
  rewrite resume_message_info.
  cbn [settle_all fst snd].
  rewrite resume_message_text by exact Htext.
  cbn [settle_all fst snd resume].
  repeat split.
Qed.

Lemma message_posts_first_text_block_witness :
  let r := settle_all [with_members members_c1; with_row (Some luna) None;
                       with_message [text_block "Hi!"; text_block "Bye"]; resolved]
             (post_new_ai_message c1 (pending_add "A1" boot)) in
  snd r = finished
  /\ List.filter (fun e => match e with sendMessage _ _ _ => true | _ => false end)
       (trace (fst r))
     = [sendMessage {| ctype := "messaging"; cid := "c1" |} "Hi!" "A1"]
  /\ bool_decide ("A1" ∈ pendingAiAgents (fst r)) = false.
Proof.
  cbv zeta. unfold c1.
  destruct (message_posts_first_text_block "messaging:c1" None None members_c1
              "A1" luna "Hi!" [text_block "Bye"] (pending_add "A1" boot)
              eq_refl eq_refl eq_refl) as (Hend & Htrace & _).
  split; [exact Hend|]. split.
  - rewrite Htrace. reflexivity.
  - reflexivity.
Defined.

End ServerMore.
